(** * Campaign workflow of the brainrot generator front end

    A shallow embedding of the React front end:
    - [lib/types.ts] (module [Types]) and [lib/api.ts] (module [Api]);
    - the [useEffect] body of [JobStatusStream] that supervises the
      server-sent event stream of one job (module [Stream]);
    - the step components [URLSubmitForm], [HighlightsSelector],
      [JobStatusStream], [UploadReelsForm] and [DMFollowersForm], each
      with its local state, in a module of the same name;
    - [StepContainer]: the campaign state, its handlers, and one turn of
      the event loop, in which a handler runs and React commits (module
      [StepContainer]).

    JavaScript strings are modelled by [string] and the model covers
    ASCII text ([toUpperCase] maps [a-z]); a [Set<string>] is a
    duplicate-free list in insertion order; plain objects and [Map]
    used as dictionaries are [gmap]s. *)

From Stdlib Require Import Ascii String.
From stdpp Require Import base strings list gmap pretty.

Open Scope string_scope.
Open Scope list_scope.

(** ** lib/types.ts

    Field names that two types share carry a prefix in one of them
    ([upd_job_id], [gen_status], [req_title]). Optional fields are
    [option]s. [progress] is a percentage that is displayed and never
    computed with. *)

Module Types.

Record HighlightSegment := {
  id_ : string;
  start_time : string;
  end_time : string;
  title : string;
}.

Record HighlightsResponse := {
  video_id : string;
  highlights : list HighlightSegment;
  total_count : nat;
}.

Inductive JobStatus := queued | downloading | generating | finished | error.

Record GenerateVideoResponse := {
  job_id : string;
  gen_status : JobStatus;
  message : string;
}.

Record JobStreamUpdate := {
  upd_job_id : string;
  status : JobStatus;
  progress : option Z;
  current_task : option string;
  finished_videos : list string;
  error_message : option string;
  created_at : string;
  updated_at : string;
}.

Record ReelUploadRequest := {
  file_path : string;
  req_title : string;
}.

Inductive DMStatus := sent | failed.

Inductive AppStep :=
  | url_submit | highlights_select | job_status
  | upload_reels | dm_followers | complete.

#[global] Instance HighlightSegment_eq_dec : EqDecision HighlightSegment.
Proof. solve_decision. Defined.
#[global] Instance JobStatus_eq_dec : EqDecision JobStatus.
Proof. solve_decision. Defined.
#[global] Instance AppStep_eq_dec : EqDecision AppStep.
Proof. solve_decision. Defined.
#[global] Instance JobStreamUpdate_eq_dec : EqDecision JobStreamUpdate.
Proof. solve_decision. Defined.
#[global] Instance ReelUploadRequest_eq_dec : EqDecision ReelUploadRequest.
Proof. solve_decision. Defined.
#[global] Instance DMStatus_eq_dec : EqDecision DMStatus.
Proof. solve_decision. Defined.

End Types.
Import Types.

(** ** The stream supervisor: the effect of [JobStatusStream]

    The effect closure owns [retryCount], [retryTimeout] and the constant
    [eventSource]; every [connectToStream] creates one more [EventSource].
    Sources and timers are numbered in creation order; [sources !! c] is
    [Some true] while source [c] has not been closed, [timers !! t] is
    [Some true] while timer [t] is still pending. *)

Module Stream.

Definition maxRetries : nat := 3.

(** One backoff unit, in milliseconds. *)
Definition backoffUnit : nat := 2000.
Arguments backoffUnit : simpl never.

Definition parseErrorText : string := "Failed to parse status update".
Definition terminalErrorText : string :=
  "Connection to status stream failed after multiple attempts".
Definition retryingText (n : nat) : string :=
  "Connection failed, retrying (" +:+ pretty n +:+ "/" +:+ pretty maxRetries
  +:+ ")...".

(** What the closure does to the outside world. *)
Inductive Action :=
  | CreateJobStream (c : nat)
  | EsClose (c : nat)
  | SetTimeout (t : nat) (ms : nat)
  | ClearTimeout (t : nat)
  | SetStatus (u : JobStreamUpdate)
  | SetError (e : option string).

#[global] Instance Action_eq_dec : EqDecision Action.
Proof. solve_decision. Defined.

Record State := {
  retryCount : nat;
  retryTimeout : option nat;
  sources : list bool;
  timers : list bool;
  eventSource : nat;
}.

(** The browser's side: events of source [c], the firing of timer [t],
    and React running the cleanup of the effect. [OnMessage] carries the
    result of [parseJobStreamData] on the event data, [None] when
    [JSON.parse] throws. *)
Inductive Event :=
  | OnOpen (c : nat)
  | OnMessage (c : nat) (data : option JobStreamUpdate)
  | OnError (c : nat)
  | TimerFired (t : nat)
  | Cleanup.

#[global] Instance Event_eq_dec : EqDecision Event.
Proof. solve_decision. Defined.

Definition isLive (st : State) (c : nat) : bool :=
  bool_decide (sources st !! c = Some true).

Definition isPending (st : State) (t : nat) : bool :=
  bool_decide (timers st !! t = Some true).

Definition connectToStream (st : State) : State * list Action :=
  let c := length (sources st) in
  ({| retryCount := retryCount st; retryTimeout := retryTimeout st;
      sources := sources st ++ [true]; timers := timers st;
      eventSource := eventSource st |},
   [CreateJobStream c]).

(** The effect body, run for a non-empty [jobId]: fresh counter, no
    timer, first connection, which is what [eventSource] stays bound to. *)
Definition attach : State * list Action :=
  ({| retryCount := 0; retryTimeout := None; sources := [true];
      timers := []; eventSource := 0 |},
   [CreateJobStream 0]).

Definition onopen (st : State) : State * list Action :=
  ({| retryCount := 0; retryTimeout := retryTimeout st;
      sources := sources st; timers := timers st;
      eventSource := eventSource st |},
   [SetError None]).

Definition onmessage (st : State) (data : option JobStreamUpdate)
  : State * list Action :=
  match data with
  | Some u => (st, [SetStatus u; SetError None])
  | None => (st, [SetError (Some parseErrorText)])
  end.

Definition onerror (st : State) (c : nat) : State * list Action :=
  let closed := <[c := false]> (sources st) in
  if bool_decide (retryCount st < maxRetries)%nat then
    let n := S (retryCount st) in
    let t := length (timers st) in
    ({| retryCount := n; retryTimeout := Some t;
        sources := closed; timers := timers st ++ [true];
        eventSource := eventSource st |},
     [EsClose c; SetError (Some (retryingText n));
      SetTimeout t (backoffUnit * n)])
  else
    ({| retryCount := retryCount st; retryTimeout := retryTimeout st;
        sources := closed; timers := timers st;
        eventSource := eventSource st |},
     [EsClose c; SetError (Some terminalErrorText)]).

Definition cleanup (st : State) : State * list Action :=
  let '(tm, acts) :=
    match retryTimeout st with
    | Some t => (<[t := false]> (timers st), [ClearTimeout t])
    | None => (timers st, [])
    end in
  ({| retryCount := retryCount st; retryTimeout := retryTimeout st;
      sources := <[eventSource st := false]> (sources st); timers := tm;
      eventSource := eventSource st |},
   acts ++ [EsClose (eventSource st)]).

(** A closed source dispatches nothing and a cleared or fired timer does
    not fire: such events leave the closure untouched. *)
Definition step (st : State) (ev : Event) : State * list Action :=
  match ev with
  | OnOpen c => if isLive st c then onopen st else (st, [])
  | OnMessage c data => if isLive st c then onmessage st data else (st, [])
  | OnError c => if isLive st c then onerror st c else (st, [])
  | TimerFired t =>
      if isPending st t then
        connectToStream
          {| retryCount := retryCount st; retryTimeout := retryTimeout st;
             sources := sources st; timers := <[t := false]> (timers st);
             eventSource := eventSource st |}
      else (st, [])
  | Cleanup => cleanup st
  end.

Fixpoint run (st : State) (evs : list Event) : State * list Action :=
  match evs with
  | [] => (st, [])
  | ev :: rest =>
      let '(st1, a1) := step st ev in
      let '(st2, a2) := run st1 rest in
      (st2, a1 ++ a2)
  end.

Definition isSetStatus (a : Action) : bool :=
  match a with SetStatus _ => true | _ => false end.
Definition isCreate (a : Action) : bool :=
  match a with CreateJobStream _ => true | _ => false end.
Definition isTerminal (a : Action) : bool :=
  bool_decide (a = SetError (Some terminalErrorText)).
Definition scheduledDelays (acts : list Action) : list nat :=
  omap (λ a, match a with SetTimeout _ ms => Some ms | _ => None end) acts.

Definition count (p : Action → bool) (acts : list Action) : nat :=
  length (filter (λ a, p a = true) acts).

Definition allOff (l : list bool) : Prop := Forall (λ b, b = false) l.

(** The closure is idle when no source is open and no timer is pending. *)
Definition idle (st : State) : Prop :=
  allOff (sources st) ∧ allOff (timers st).

(** Source [c], the latest one, is the only open one and no timer is
    pending. *)
Definition connected (st : State) (c : nat) : Prop :=
  sources st = replicate c false ++ [true] ∧ allOff (timers st)
  ∧ eventSource st = 0.

(** No source is open and timer [t], the latest one, is pending. *)
Definition waiting (st : State) (t : nat) : Prop :=
  allOff (sources st) ∧ timers st = replicate t false ++ [true]
  ∧ retryTimeout st = Some t ∧ eventSource st = 0.

Inductive Shape (st : State) : Prop :=
  | IsConnected (c : nat) (H : connected st c)
  | IsWaiting (t : nat) (H : waiting st t)
  | IsIdle (H : idle st).

(** Actions that neither connect nor report anything. *)
Definition housekeeping (a : Action) : Prop :=
  ∃ i, a = ClearTimeout i ∨ a = EsClose i.

(** [k] failures in a row, starting with source [c] while the next timer
    is [t]: each failed source is followed by the timer that replaces it. *)
Fixpoint failing (c t k : nat) : list Event :=
  match k with
  | 0 => []
  | S k' => OnError c :: TimerFired t :: failing (S c) (S t) k'
  end.

End Stream.

(** ** JavaScript string and [Set] primitives used by the components *)

Module Js.

Fixpoint stripPrefix (pre s : string) : option string :=
  match pre, s with
  | EmptyString, _ => Some s
  | String a pre', String b s' =>
      if decide (a = b) then stripPrefix pre' s' else None
  | String _ _, EmptyString => None
  end.


(** [s.replace(pat, rep)] with a string pattern: the first occurrence. *)
Fixpoint replaceFirst (pat rep s : string) : string :=
  match stripPrefix pat s with
  | Some rest => rep +:+ rest
  | None =>
      match s with
      | EmptyString => EmptyString
      | String c s' => String c (replaceFirst pat rep s')
      end
  end.

(** [s.replace(/^pre/, '')]. *)
Definition replaceAtStart (pre s : string) : string :=
  default s (stripPrefix pre s).

(** [s.replace(/a/g, b)] for single characters. *)
Fixpoint replaceAllChar (a b : ascii) (s : string) : string :=
  match s with
  | EmptyString => EmptyString
  | String c s' => String (if decide (c = a) then b else c) (replaceAllChar a b s')
  end.

(** [s.split(sep)] for a single-character separator, with the segment
    being read accumulated in [cur]. *)
Fixpoint splitFrom (sep : ascii) (cur s : string) : list string :=
  match s with
  | EmptyString => [cur]
  | String c s' =>
      if decide (c = sep) then cur :: splitFrom sep EmptyString s'
      else splitFrom sep (cur +:+ String c EmptyString) s'
  end.
Definition split (sep : ascii) (s : string) : list string :=
  splitFrom sep EmptyString s.

(** [arr.pop()], as a value. *)
Definition pop (l : list string) : option string := last l.

Definition toUpperCaseChar (c : ascii) : ascii :=
  let n := nat_of_ascii c in
  if bool_decide (97 ≤ n ≤ 122)%nat then ascii_of_nat (n - 32) else c.

(** [s.charAt(0).toUpperCase() + s.slice(1)]. *)
Definition capitalize (s : string) : string :=
  match s with
  | EmptyString => EmptyString
  | String c s' => String (toUpperCaseChar c) s'
  end.

(** Truthiness of a string and [a || b] on strings. *)
Definition truthy (s : string) : bool := negb (bool_decide (s = "")).
Definition orElse (a b : string) : string := if truthy a then a else b.

Definition isWhitespace (c : ascii) : bool :=
  let n := nat_of_ascii c in
  bool_decide (9 ≤ n ≤ 13)%nat || bool_decide (n = 32).

Fixpoint allChars (p : ascii → bool) (s : string) : bool :=
  match s with
  | EmptyString => true
  | String c s' => p c && allChars p s'
  end.

(** [!s.trim()]. *)
Definition trimIsEmpty (s : string) : bool := allChars isWhitespace s.

(** [\w] or [-]. *)
Definition isWordOrDash (c : ascii) : bool :=
  let n := nat_of_ascii c in
  bool_decide (48 ≤ n ≤ 57)%nat || bool_decide (65 ≤ n ≤ 90)%nat
  || bool_decide (97 ≤ n ≤ 122)%nat || bool_decide (n = 95) || bool_decide (n = 45).

(** [Set<string>]: insertion-ordered, no duplicates. *)
Definition has (x : string) (s : list string) : bool := bool_decide (x ∈ s).
Definition add (x : string) (s : list string) : list string :=
  if has x s then s else s ++ [x].
Definition delete (x : string) (s : list string) : list string :=
  filter (λ y, y ≠ x) s.
Definition newSet (l : list string) : list string :=
  fold_left (λ s x, add x s) l [].
Definition toggle (x : string) (s : list string) : list string :=
  if has x s then delete x s else add x s.

End Js.

(** ** lib/api.ts *)

Module Api.

(** What a [catch] clause can receive. *)
Inductive Thrown :=
  | APIError (status : nat) (msg : string)
  | JsError (msg : string)
  | OtherThrown.

(** How a [fetch] settles: the promise rejects or the body cannot be
    read as JSON ([Rejected]), the response is not [ok], or the response
    is [ok] with a body of the documented shape. *)
Inductive Fetched (T : Type) :=
  | Rejected (e : Thrown)
  | NotOk (status : nat) (statusText : string) (errorText : string)
  | Ok (value : T).
Arguments Rejected {T} e.
Arguments NotOk {T} status statusText errorText.
Arguments Ok {T} value.

Definition fetchJSON {T : Type} (r : Fetched T) : Thrown + T :=
  match r with
  | Rejected e => inl e
  | NotOk st stText errText => inl (APIError st (Js.orElse errText stText))
  | Ok v => inr v
  end.

(** The three-way [catch] shared by every caller of the API. *)
Definition catchText (pre generic : string) (e : Thrown) : string :=
  match e with
  | APIError _ m => pre +:+ m
  | JsError m => pre +:+ m
  | OtherThrown => generic
  end.

End Api.

(** ** UploadReelsForm: title table and upload request *)

Module UploadReelsForm.

Record State := {
  selectedVideos : list string;
  titles : gmap string string;
  loading : bool;
  error : option string;
}.

(** [new Map(selectedHighlights.map(h => [h.id_, h.title]))]: entries are
    set in order, a later one replaces an earlier one with the same key. *)
Definition highlightTitles (selectedHighlights : list HighlightSegment)
  : gmap string string :=
  fold_left (λ m h, <[id_ h := title h]> m) selectedHighlights ∅.

Definition filenameOf (path : string) : string :=
  Js.orElse
    (default "" (Js.replaceFirst ".mp4" "" <$> Js.pop (Js.split "/"%char path))) "".

Definition highlightIdOf (path : string) : string :=
  Js.replaceAtStart "out_" (filenameOf path).

Definition cleanTitleOf (path : string) : string :=
  Js.replaceAllChar "_"%char " "%char (Js.replaceAtStart "out_" (filenameOf path)).

(** The body of the [forEach] for one path. *)
Definition initialTitle (selectedHighlights : list HighlightSegment)
    (path : string) : string :=
  match highlightTitles selectedHighlights !! highlightIdOf path with
  | Some highlightTitle =>
      if Js.truthy highlightTitle then highlightTitle
      else Js.capitalize (cleanTitleOf path)
  | None => Js.capitalize (cleanTitleOf path)
  end.

Definition initialTitles (finishedVideos : list string)
    (selectedHighlights : list HighlightSegment) : gmap string string :=
  fold_left (λ m path, <[path := initialTitle selectedHighlights path]> m)
    finishedVideos ∅.

Definition initialState (finishedVideos : list string)
    (selectedHighlights : list HighlightSegment) : State :=
  {| selectedVideos := Js.newSet finishedVideos;
     titles := initialTitles finishedVideos selectedHighlights;
     loading := false;
     error := None |}.



Definition fallbackTitle : string := "Generated Short".

(** [titles[videoPath] || "Generated Short"]. *)
Definition titleFor (st : State) (videoPath : string) : string :=
  match titles st !! videoPath with
  | Some t => Js.orElse t fallbackTitle
  | None => fallbackTitle
  end.

Definition reelsToUpload (st : State) : list ReelUploadRequest :=
  (λ videoPath, {| file_path := videoPath; req_title := titleFor st videoPath |})
    <$> selectedVideos st.

(** The upload button exists and is enabled. *)
Definition canUpload (finishedVideos : list string) (st : State) : bool :=
  negb (bool_decide (length finishedVideos = 0))
  && bool_decide (0 < length (selectedVideos st))%nat
  && negb (loading st).

Definition toggleVideo (videoPath : string) (st : State) : State :=
  {| selectedVideos := Js.toggle videoPath (selectedVideos st);
     titles := titles st; loading := loading st; error := error st |}.
Definition selectAll (finishedVideos : list string) (st : State) : State :=
  {| selectedVideos := Js.newSet finishedVideos;
     titles := titles st; loading := loading st; error := error st |}.
Definition clearAll (st : State) : State :=
  {| selectedVideos := [];
     titles := titles st; loading := loading st; error := error st |}.
Definition updateTitle (videoPath t : string) (st : State) : State :=
  {| selectedVideos := selectedVideos st;
     titles := <[videoPath := t]> (titles st);
     loading := loading st; error := error st |}.
Definition setLoading (b : bool) (st : State) : State :=
  {| selectedVideos := selectedVideos st; titles := titles st;
     loading := b; error := error st |}.
Definition setError (e : option string) (st : State) : State :=
  {| selectedVideos := selectedVideos st; titles := titles st;
     loading := loading st; error := e |}.

Definition uploadFailPrefix : string := "Failed to upload videos: ".
Definition uploadFailGeneric : string :=
  "An unexpected error occurred while uploading videos.".

End UploadReelsForm.

(** ** URLSubmitForm *)

Module URLSubmitForm.

Record State := {
  videoUrl : string;
  language : string;
  noAutoSubs : bool;
  loading : bool;
  error : option string;
}.

Definition initialState : State :=
  {| videoUrl := ""; language := "en"; noAutoSubs := false;
     loading := false; error := None |}.

Definition firstIsWordOrDash (s : string) : bool :=
  match s with
  | EmptyString => false
  | String c _ => Js.isWordOrDash c
  end.

(** The regular expression
    [^(https?:\/\/)?(www\.)?(youtube\.com\/watch\?v=|youtu\.be\/)[\w-]+]:
    no alternative overlaps with what an optional group consumes, so the
    match is read off left to right. *)
Definition validateYouTubeURL (url : string) : bool :=
  let s1 :=
    match Js.stripPrefix "https://" url with
    | Some r => r
    | None => default url (Js.stripPrefix "http://" url)
    end in
  let s2 := default s1 (Js.stripPrefix "www." s1) in
  match Js.stripPrefix "youtube.com/watch?v=" s2 with
  | Some r => firstIsWordOrDash r
  | None =>
      match Js.stripPrefix "youtu.be/" s2 with
      | Some r => firstIsWordOrDash r
      | None => false
      end
  end.

Definition setVideoUrl (v : string) (st : State) : State :=
  {| videoUrl := v; language := language st; noAutoSubs := noAutoSubs st;
     loading := loading st; error := error st |}.
Definition setLanguage (v : string) (st : State) : State :=
  {| videoUrl := videoUrl st; language := v; noAutoSubs := noAutoSubs st;
     loading := loading st; error := error st |}.
Definition setNoAutoSubs (b : bool) (st : State) : State :=
  {| videoUrl := videoUrl st; language := language st; noAutoSubs := b;
     loading := loading st; error := error st |}.
Definition setLoading (b : bool) (st : State) : State :=
  {| videoUrl := videoUrl st; language := language st;
     noAutoSubs := noAutoSubs st; loading := b; error := error st |}.
Definition setError (e : option string) (st : State) : State :=
  {| videoUrl := videoUrl st; language := language st;
     noAutoSubs := noAutoSubs st; loading := loading st; error := e |}.

Definition emptyUrlText : string := "Please enter a YouTube URL".
Definition invalidUrlText : string := "Please enter a valid YouTube URL".
Definition extractFailPrefix : string := "Failed to extract highlights: ".
Definition extractFailGeneric : string :=
  "An unexpected error occurred. Please try again.".

(** [handleSubmit] up to its [await]: the new local state and whether
    [extractHighlights] is called. *)
Definition handleSubmit (st : State) : State * bool :=
  if Js.trimIsEmpty (videoUrl st) then (setError (Some emptyUrlText) st, false)
  else if negb (validateYouTubeURL (videoUrl st))
  then (setError (Some invalidUrlText) st, false)
  else (setLoading true (setError None st), true).

End URLSubmitForm.

(** ** HighlightsSelector *)

Module HighlightsSelector.

Record State := { selectedIds : list string }.

Definition initialState : State := {| selectedIds := [] |}.

Definition toggleHighlight (id : string) (st : State) : State :=
  {| selectedIds := Js.toggle id (selectedIds st) |}.
Definition selectAll (highlights : list HighlightSegment) (st : State) : State :=
  {| selectedIds := Js.newSet (id_ <$> highlights) |}.
Definition clearAll (st : State) : State := {| selectedIds := [] |}.

(** The argument [handleGenerate] passes to [onGenerate]. *)
Definition handleGenerate (highlights : list HighlightSegment) (st : State)
  : list HighlightSegment :=
  filter (λ h, id_ h ∈ selectedIds st) highlights.

End HighlightsSelector.

(** ** JobStatusStream: the state of the component

    [effect] is the number of the supervisor closure installed by the
    last run of the effect. *)

Module JobStatusStream.

Record State := {
  status : option JobStreamUpdate;
  error : option string;
  effect : nat;
}.

Definition initialState : State :=
  {| status := None; error := None; effect := 0 |}.

Definition setStatus (u : JobStreamUpdate) (st : State) : State :=
  {| status := Some u; error := error st; effect := effect st |}.
Definition setError (e : option string) (st : State) : State :=
  {| status := status st; error := e; effect := effect st |}.
Definition setEffect (k : nat) (st : State) : State :=
  {| status := status st; error := error st; effect := k |}.

Definition truthyOpt (o : option string) : bool :=
  match o with Some t => Js.truthy t | None => false end.

Definition isCompleted (st : State) : bool :=
  match status st with
  | Some u => bool_decide (Types.status u = finished)
              || bool_decide (Types.status u = Types.error)
  | None => false
  end.

(** Some button wired to [onRestart] is rendered. *)
Definition canRestart (st : State) : bool :=
  match status st with
  | None => truthyOpt (error st)
  | Some u => truthyOpt (error_message u) || isCompleted st
  end.

(** The "Continue to Upload" button is rendered; the value is the
    argument it passes to [onComplete]. *)
Definition canContinue (st : State) : option (list string) :=
  match status st with
  | Some u =>
      if isCompleted st && bool_decide (Types.status u = finished)
         && bool_decide (0 < length (finished_videos u))%nat
      then Some (finished_videos u) else None
  | None => None
  end.

End JobStatusStream.

(** ** DMFollowersForm *)

Module DMFollowersForm.

Record State := {
  followers : list string;
  selectedFollowers : list string;
  loadingFollowers : bool;
  sendingDMs : bool;
  dmResults : option (gmap string DMStatus);
  error : option string;
}.

Definition initialState : State :=
  {| followers := []; selectedFollowers := []; loadingFollowers := true;
     sendingDMs := false; dmResults := None; error := None |}.

Definition setFollowers (l : list string) (st : State) : State :=
  {| followers := l; selectedFollowers := selectedFollowers st;
     loadingFollowers := loadingFollowers st; sendingDMs := sendingDMs st;
     dmResults := dmResults st; error := error st |}.
Definition setSelectedFollowers (l : list string) (st : State) : State :=
  {| followers := followers st; selectedFollowers := l;
     loadingFollowers := loadingFollowers st; sendingDMs := sendingDMs st;
     dmResults := dmResults st; error := error st |}.
Definition setLoadingFollowers (b : bool) (st : State) : State :=
  {| followers := followers st; selectedFollowers := selectedFollowers st;
     loadingFollowers := b; sendingDMs := sendingDMs st;
     dmResults := dmResults st; error := error st |}.
Definition setSendingDMs (b : bool) (st : State) : State :=
  {| followers := followers st; selectedFollowers := selectedFollowers st;
     loadingFollowers := loadingFollowers st; sendingDMs := b;
     dmResults := dmResults st; error := error st |}.
Definition setDmResults (r : option (gmap string DMStatus)) (st : State) : State :=
  {| followers := followers st; selectedFollowers := selectedFollowers st;
     loadingFollowers := loadingFollowers st; sendingDMs := sendingDMs st;
     dmResults := r; error := error st |}.
Definition setError (e : option string) (st : State) : State :=
  {| followers := followers st; selectedFollowers := selectedFollowers st;
     loadingFollowers := loadingFollowers st; sendingDMs := sendingDMs st;
     dmResults := dmResults st; error := e |}.

(** The selection view is rendered. *)
Definition selecting (st : State) : bool :=
  negb (bool_decide (is_Some (dmResults st))) && negb (loadingFollowers st)
  && bool_decide (0 < length (followers st))%nat.

Definition followersFailPrefix : string := "Failed to fetch followers: ".
Definition followersFailGeneric : string :=
  "An unexpected error occurred while fetching followers.".
Definition dmFailPrefix : string := "Failed to send DMs: ".
Definition dmFailGeneric : string :=
  "An unexpected error occurred while sending DMs.".

End DMFollowersForm.

(** ** StepContainer and the component it mounts *)

Module StepContainer.

Record AppState := {
  currentStep : AppStep;
  highlights : list HighlightSegment;
  selectedHighlights : list HighlightSegment;
  videoUrl : string;
  language : string;
  noAutoSubs : bool;
  jobId : option string;
  finishedVideos : list string;
  reelLinks : list string;
}.

Definition initialAppState : AppState :=
  {| currentStep := url_submit; highlights := []; selectedHighlights := [];
     videoUrl := ""; language := "en"; noAutoSubs := false; jobId := None;
     finishedVideos := []; reelLinks := [] |}.

(** *** The state updaters of the handlers *)

Definition handleHighlightsSuccess (data : HighlightsResponse)
    (url lang : string) (nas : bool) (prev : AppState) : AppState :=
  {| currentStep := highlights_select;
     highlights := Types.highlights data;
     selectedHighlights := selectedHighlights prev;
     videoUrl := url; language := lang; noAutoSubs := nas;
     jobId := jobId prev; finishedVideos := finishedVideos prev;
     reelLinks := reelLinks prev |}.

Definition withStep (step : AppStep) (prev : AppState) : AppState :=
  {| currentStep := step;
     highlights := highlights prev;
     selectedHighlights := selectedHighlights prev;
     videoUrl := videoUrl prev; language := language prev;
     noAutoSubs := noAutoSubs prev;
     jobId := jobId prev; finishedVideos := finishedVideos prev;
     reelLinks := reelLinks prev |}.

Definition withStepNoJob (step : AppStep) (prev : AppState) : AppState :=
  {| currentStep := step;
     highlights := highlights prev;
     selectedHighlights := selectedHighlights prev;
     videoUrl := videoUrl prev; language := language prev;
     noAutoSubs := noAutoSubs prev;
     jobId := None; finishedVideos := finishedVideos prev;
     reelLinks := reelLinks prev |}.

Definition handleBackToUrl : AppState → AppState := withStepNoJob url_submit.
Definition handleBackToHighlights : AppState → AppState :=
  withStepNoJob highlights_select.
Definition handleRestart : AppState → AppState :=
  withStepNoJob highlights_select.
Definition handleBackToJobStatus : AppState → AppState := withStep job_status.
Definition handleBackToUpload : AppState → AppState := withStep upload_reels.
Definition handleCampaignComplete : AppState → AppState := withStep complete.

(** The updater run by [handleGenerateVideos] once [generateVideos]
    has answered. *)
Definition generateSucceeded (selected : list HighlightSegment)
    (response : GenerateVideoResponse) (prev : AppState) : AppState :=
  {| currentStep := job_status;
     highlights := highlights prev;
     selectedHighlights := selected;
     videoUrl := videoUrl prev; language := language prev;
     noAutoSubs := noAutoSubs prev;
     jobId := Some (job_id response); finishedVideos := finishedVideos prev;
     reelLinks := reelLinks prev |}.

Definition handleJobComplete (videos : list string) (prev : AppState)
  : AppState :=
  {| currentStep := upload_reels;
     highlights := highlights prev;
     selectedHighlights := selectedHighlights prev;
     videoUrl := videoUrl prev; language := language prev;
     noAutoSubs := noAutoSubs prev;
     jobId := jobId prev; finishedVideos := videos;
     reelLinks := reelLinks prev |}.

Definition handleUploadSuccess (links : list string) (prev : AppState)
  : AppState :=
  {| currentStep := dm_followers;
     highlights := highlights prev;
     selectedHighlights := selectedHighlights prev;
     videoUrl := videoUrl prev; language := language prev;
     noAutoSubs := noAutoSubs prev;
     jobId := jobId prev; finishedVideos := finishedVideos prev;
     reelLinks := links |}.

Definition handleStartNewCampaign (prev : AppState) : AppState :=
  initialAppState.

Definition generateFailPrefix : string := "Failed to start video generation: ".
Definition generateFailGeneric : string :=
  "An unexpected error occurred while starting video generation.".

(** *** What is on screen *)

Inductive Child :=
  | CUrl (f : URLSubmitForm.State)
  | CSelect (h : HighlightsSelector.State)
  | CJob (j : JobStatusStream.State)
  | CUpload (u : UploadReelsForm.State)
  | CDm (d : DMFollowersForm.State)
  | CComplete
  | CNone.

Inductive Slot := SUrl | SSelect | SJob | SUpload | SDm | SComplete | SNone.

#[global] Instance Slot_eq_dec : EqDecision Slot.
Proof. solve_decision. Defined.

(** The conditional rendering at the end of [StepContainer]; the
    job-status slot also needs a truthy [jobId]. *)
Definition slotOf (a : AppState) : Slot :=
  match currentStep a with
  | url_submit => SUrl
  | highlights_select => SSelect
  | job_status => if JobStatusStream.truthyOpt (jobId a) then SJob else SNone
  | upload_reels => SUpload
  | dm_followers => SDm
  | complete => SComplete
  end.

Definition childSlot (c : Child) : Slot :=
  match c with
  | CUrl _ => SUrl
  | CSelect _ => SSelect
  | CJob _ => SJob
  | CUpload _ => SUpload
  | CDm _ => SDm
  | CComplete => SComplete
  | CNone => SNone
  end.

(** *** Remote calls in flight *)

(** A call remembers what its continuation closes over: the component
    instance whose setters it will use ([owner]) and the arguments. *)
Inductive Call :=
  | ExtractCall (owner : nat) (url lang : string) (nas : bool)
  | GenerateCall (url : string) (selected : list HighlightSegment)
  | UploadCall (owner : nat) (reels : list ReelUploadRequest)
  | FollowersCall (owner : nat)
  | DmCall (owner : nat) (links followers : list string).

Inductive Payload :=
  | PHighlights (data : HighlightsResponse)
  | PGenerate (response : GenerateVideoResponse)
  | PReels (reel_links : list string)
  | PFollowers (followers : list string)
  | PDmStatus (dm_status : gmap string DMStatus).

(** One supervisor closure: the component instance that installed it,
    the [jobId] it was installed for, and its variables. *)
Record Supervisor := {
  installedBy : nat;
  forJob : string;
  closure : Stream.State;
}.

(** The whole front end between two events: the campaign state and the
    error text of [StepContainer]; the step component on screen with its
    local state, the number of that instance and the number of instances
    mounted so far; the remote calls awaited; the closures installed by
    the effects of all JobStatusStream instances so far. *)
Record Sys := {
  app : AppState;
  error : option string;
  child : Child;
  inst : nat;
  mounts : nat;
  inflight : list Call;
  streams : list Supervisor;
}.

(** Who a [catch] clause reports to. *)
Inductive Caller := Container | Component (owner : nat).

(** What a turn of the event loop does to the outside: a remote call
    is issued, a [catch] clause sets an error text, an effect installs
    closure [k] for a job or cleans it up, closure [k] acts. *)
Inductive Effect :=
  | Called (c : Call)
  | ErrorSurfaced (who : Caller) (text : string)
  | Attached (k : nat) (job : string)
  | Released (k : nat)
  | StreamAct (k : nat) (a : Stream.Action).

(** State and effect log are threaded through the steps of a handler. *)
Definition Act : Type := Sys → Sys * list Effect.

Definition andThen (f g : Act) : Act :=
  λ s, let '(s1, e1) := f s in let '(s2, e2) := g s1 in (s2, e1 ++ e2).
Infix ">>" := andThen (at level 61, left associativity).

Definition skip : Act := λ s, (s, []).
Definition emit (e : Effect) : Act := λ s, (s, [e]).

Definition setApp (f : AppState → AppState) : Act :=
  λ s, ({| app := f (app s); error := error s; child := child s;
           inst := inst s; mounts := mounts s; inflight := inflight s;
           streams := streams s |}, []).
Definition setError (e : option string) : Act :=
  λ s, ({| app := app s; error := e; child := child s;
           inst := inst s; mounts := mounts s; inflight := inflight s;
           streams := streams s |}, []).
Definition setChild (c : Child) : Act :=
  λ s, ({| app := app s; error := error s; child := c;
           inst := inst s; mounts := mounts s; inflight := inflight s;
           streams := streams s |}, []).
Definition setInflight (l : list Call) : Act :=
  λ s, ({| app := app s; error := error s; child := child s;
           inst := inst s; mounts := mounts s; inflight := l;
           streams := streams s |}, []).
Definition setStreams (l : list Supervisor) : Act :=
  λ s, ({| app := app s; error := error s; child := child s;
           inst := inst s; mounts := mounts s; inflight := inflight s;
           streams := l |}, []).
Definition newInstance : Act :=
  λ s, ({| app := app s; error := error s; child := child s;
           inst := mounts s; mounts := S (mounts s); inflight := inflight s;
           streams := streams s |}, []).

(** A handler of [StepContainer]: [setState(updater); setError(null)]. *)
Definition container (f : AppState → AppState) : Act :=
  setApp f >> setError None.

Definition call (c : Call) : Act :=
  (λ s, setInflight (inflight s ++ [c]) s) >> emit (Called c).

(** Setters of a component instance reach its state only while that
    instance is mounted; React drops them afterwards. *)
Definition onUrl (owner : nat) (f : URLSubmitForm.State → URLSubmitForm.State)
  : Act :=
  λ s, match child s with
       | CUrl st => if decide (inst s = owner) then setChild (CUrl (f st)) s
                    else (s, [])
       | _ => (s, [])
       end.
Definition onUpload (owner : nat)
    (f : UploadReelsForm.State → UploadReelsForm.State) : Act :=
  λ s, match child s with
       | CUpload st => if decide (inst s = owner) then setChild (CUpload (f st)) s
                       else (s, [])
       | _ => (s, [])
       end.
Definition onDm (owner : nat)
    (f : DMFollowersForm.State → DMFollowersForm.State) : Act :=
  λ s, match child s with
       | CDm st => if decide (inst s = owner) then setChild (CDm (f st)) s
                   else (s, [])
       | _ => (s, [])
       end.
Definition onJob (owner : nat)
    (f : JobStatusStream.State → JobStatusStream.State) : Act :=
  λ s, match child s with
       | CJob st => if decide (inst s = owner) then setChild (CJob (f st)) s
                    else (s, [])
       | _ => (s, [])
       end.

(** *** The effect of JobStatusStream: install and clean up *)

Definition attach (job : string) : Act :=
  λ s,
    let k := length (streams s) in
    let '(st, acts) := Stream.attach in
    (setStreams (streams s ++ [{| installedBy := inst s; forJob := job;
                                  closure := st |}])
     >> onJob (inst s) (JobStatusStream.setEffect k)
     >> (λ s', (s', Attached k job :: (StreamAct k <$> acts)))) s.

Definition release (k : nat) : Act :=
  λ s,
    match streams s !! k with
    | Some sup =>
        let '(st, acts) := Stream.cleanup (closure sup) in
        (setStreams (<[k := {| installedBy := installedBy sup;
                               forJob := forJob sup; closure := st |}]>
                       (streams s))
         >> (λ s', (s', Released k :: (StreamAct k <$> acts)))) s
    | None => (s, [])
    end.

(** *** Commit: unmount, mount, re-run the effect on a new [jobId] *)

Definition unmount : Act :=
  λ s, match child s with
       | CJob j => release (JobStatusStream.effect j) s
       | _ => (s, [])
       end.

Definition mount (slot : Slot) : Act :=
  newInstance >>
  match slot with
  | SUrl => setChild (CUrl URLSubmitForm.initialState)
  | SSelect => setChild (CSelect HighlightsSelector.initialState)
  | SJob =>
      setChild (CJob JobStatusStream.initialState)
      >> (λ s, attach (default "" (jobId (app s))) s)
  | SUpload =>
      λ s, setChild (CUpload (UploadReelsForm.initialState (finishedVideos (app s))
                                (selectedHighlights (app s)))) s
  | SDm =>
      setChild (CDm DMFollowersForm.initialState)
      >> (λ s, call (FollowersCall (inst s)) s)
  | SComplete => setChild CComplete
  | SNone => setChild CNone
  end.

Definition commit : Act :=
  λ s,
    if decide (childSlot (child s) = slotOf (app s)) then
      match child s with
      | CJob j =>
          let job := default "" (jobId (app s)) in
          match streams s !! JobStatusStream.effect j with
          | Some sup =>
              if decide (forJob sup = job) then (s, [])
              else (release (JobStatusStream.effect j) >> attach job) s
          | None => (s, [])
          end
      | _ => (s, [])
      end
    else (unmount >> mount (slotOf (app s))) s.

(** *** User, stream and network events *)

Inductive Event :=
  | TypeUrl (v : string)
  | ChooseLanguage (v : string)
  | SwitchNoAutoSubs (b : bool)
  | Submit
  | ToggleHighlight (id : string)
  | SelectAllHighlights
  | ClearAllHighlights
  | ClickGenerate
  | ClickBack
  | ClickRestart
  | ClickContinueToUpload
  | StreamEvent (k : nat) (ev : Stream.Event)
  | ToggleVideo (path : string)
  | SelectAllVideos
  | ClearAllVideos
  | EditTitle (path t : string)
  | ClickUpload
  | ToggleFollower (f : string)
  | SelectAllFollowers
  | ClearAllFollowers
  | ClickSendDMs
  | ClickContinue
  | ClickStartNew
  | Settle (i : nat) (r : Api.Fetched Payload).

(** Controls of URLSubmitForm; all are disabled while [loading]. *)
Definition urlEvent (ev : Event) (f : URLSubmitForm.State) : Act :=
  if URLSubmitForm.loading f then skip else
  match ev with
  | TypeUrl v => setChild (CUrl (URLSubmitForm.setVideoUrl v f))
  | ChooseLanguage v => setChild (CUrl (URLSubmitForm.setLanguage v f))
  | SwitchNoAutoSubs b => setChild (CUrl (URLSubmitForm.setNoAutoSubs b f))
  | Submit =>
      let '(f', go) := URLSubmitForm.handleSubmit f in
      setChild (CUrl f') >>
      (if go then
         λ s, call (ExtractCall (inst s) (URLSubmitForm.videoUrl f)
                      (URLSubmitForm.language f) (URLSubmitForm.noAutoSubs f)) s
       else skip)
  | _ => skip
  end.

(** Controls of HighlightsSelector; [handleGenerateVideos] starts with
    [setError(null)] and then awaits [generateVideos]. *)
Definition selectEvent (ev : Event) (h : HighlightsSelector.State) : Act :=
  λ s,
    let hl := highlights (app s) in
    let ids := HighlightsSelector.selectedIds h in
    match ev with
    | ToggleHighlight id =>
        if bool_decide (id ∈ id_ <$> hl)
        then setChild (CSelect (HighlightsSelector.toggleHighlight id h)) s
        else (s, [])
    | SelectAllHighlights =>
        if bool_decide (length ids = length hl) then (s, [])
        else setChild (CSelect (HighlightsSelector.selectAll hl h)) s
    | ClearAllHighlights =>
        if bool_decide (length ids = 0) then (s, [])
        else setChild (CSelect (HighlightsSelector.clearAll h)) s
    | ClickGenerate =>
        if bool_decide (0 < length ids)%nat then
          (setError None >>
           call (GenerateCall (videoUrl (app s))
                   (HighlightsSelector.handleGenerate hl h))) s
        else (s, [])
    | ClickBack => container handleBackToUrl s
    | _ => (s, [])
    end.

Definition jobEvent (ev : Event) (j : JobStatusStream.State) : Act :=
  match ev with
  | ClickBack => container handleBackToHighlights
  | ClickRestart =>
      if JobStatusStream.canRestart j then container handleRestart else skip
  | ClickContinueToUpload =>
      match JobStatusStream.canContinue j with
      | Some videos => container (handleJobComplete videos)
      | None => skip
      end
  | _ => skip
  end.

(** Controls of UploadReelsForm. With no finished video only the
    "Back to Generation" button is rendered. *)
Definition uploadEvent (ev : Event) (u : UploadReelsForm.State) : Act :=
  λ s,
    let fv := finishedVideos (app s) in
    let sel := UploadReelsForm.selectedVideos u in
    if bool_decide (length fv = 0) then
      match ev with
      | ClickBack => container handleBackToJobStatus s
      | _ => (s, [])
      end
    else if UploadReelsForm.loading u then (s, [])
    else
      match ev with
      | ClickBack => container handleBackToJobStatus s
      | SelectAllVideos =>
          if bool_decide (length sel = length fv) then (s, [])
          else setChild (CUpload (UploadReelsForm.selectAll fv u)) s
      | ClearAllVideos =>
          if bool_decide (length sel = 0) then (s, [])
          else setChild (CUpload (UploadReelsForm.clearAll u)) s
      | ToggleVideo path =>
          if bool_decide (path ∈ fv)
          then setChild (CUpload (UploadReelsForm.toggleVideo path u)) s
          else (s, [])
      | EditTitle path t =>
          if bool_decide (path ∈ fv) && Js.has path sel
          then setChild (CUpload (UploadReelsForm.updateTitle path t u)) s
          else (s, [])
      | ClickUpload =>
          if UploadReelsForm.canUpload fv u then
            (setChild (CUpload (UploadReelsForm.setLoading true
                                  (UploadReelsForm.setError None u)))
             >> call (UploadCall (inst s) (UploadReelsForm.reelsToUpload u))) s
          else (s, [])
      | _ => (s, [])
      end.

(** Controls of DMFollowersForm. The follower rows stay clickable while
    a send is in progress; the buttons do not. *)
Definition dmEvent (ev : Event) (d : DMFollowersForm.State) : Act :=
  λ s,
    let sel := DMFollowersForm.selectedFollowers d in
    let fl := DMFollowersForm.followers d in
    let busy := DMFollowersForm.sendingDMs d in
    match ev with
    | ClickBack => if busy then (s, []) else container handleBackToUpload s
    | ToggleFollower f =>
        if DMFollowersForm.selecting d && bool_decide (f ∈ fl)
        then setChild (CDm (DMFollowersForm.setSelectedFollowers
                              (Js.toggle f sel) d)) s
        else (s, [])
    | SelectAllFollowers =>
        if DMFollowersForm.selecting d
           && negb (bool_decide (length sel = length fl) || busy)
        then setChild (CDm (DMFollowersForm.setSelectedFollowers
                              (Js.newSet fl) d)) s
        else (s, [])
    | ClearAllFollowers =>
        if DMFollowersForm.selecting d
           && negb (bool_decide (length sel = 0) || busy)
        then setChild (CDm (DMFollowersForm.setSelectedFollowers [] d)) s
        else (s, [])
    | ClickSendDMs =>
        if DMFollowersForm.selecting d
           && bool_decide (0 < length sel)%nat && negb busy
        then
          (setChild (CDm (DMFollowersForm.setDmResults None
                            (DMFollowersForm.setSendingDMs true
                               (DMFollowersForm.setError None d))))
           >> call (DmCall (inst s) (reelLinks (app s)) sel)) s
        else (s, [])
    | ClickContinue =>
        if bool_decide (is_Some (DMFollowersForm.dmResults d))
        then container handleCampaignComplete s
        else (s, [])
    | _ => (s, [])
    end.

Definition completeEvent (ev : Event) : Act :=
  match ev with
  | ClickStartNew => container handleStartNewCampaign
  | _ => skip
  end.

(** What a supervisor closure does reaches the component through the
    setters it closed over. *)
Definition deliver (k owner : nat) (a : Stream.Action) : Act :=
  match a with
  | Stream.SetStatus u => onJob owner (JobStatusStream.setStatus u)
  | Stream.SetError e => onJob owner (JobStatusStream.setError e)
  | _ => skip
  end >> emit (StreamAct k a).

Definition deliverAll (k owner : nat) (acts : list Stream.Action) : Act :=
  fold_right (λ a rest, deliver k owner a >> rest) skip acts.

(** An event of the browser for closure [k]; the cleanup is run by
    [commit] only. *)
Definition streamEvent (k : nat) (ev : Stream.Event) : Act :=
  λ s,
    match ev, streams s !! k with
    | Stream.Cleanup, _ => (s, [])
    | _, Some sup =>
        let '(st, acts) := Stream.step (closure sup) ev in
        (setStreams (<[k := {| installedBy := installedBy sup;
                               forJob := forJob sup; closure := st |}]>
                       (streams s))
         >> deliverAll k (installedBy sup) acts) s
    | _, None => (s, [])
    end.

Definition surface (who : Caller) (text : string) : Act :=
  emit (ErrorSurfaced who text).

(** The continuation of an [await]: call [i] settles with [r]. An answer
    whose shape is not the one documented for the call is not modelled. *)
Definition settle (i : nat) (r : Api.Fetched Payload) : Act :=
  λ s,
    let done := setInflight (base.delete i (inflight s)) in
    match inflight s !! i with
    | None => (s, [])
    | Some c =>
        match c, Api.fetchJSON r with
        | ExtractCall o url lang nas, inr (PHighlights data) =>
            (done >> container (handleHighlightsSuccess data url lang nas)
             >> onUrl o (URLSubmitForm.setLoading false)) s
        | ExtractCall o _ _ _, inl e =>
            let text := Api.catchText URLSubmitForm.extractFailPrefix
                          URLSubmitForm.extractFailGeneric e in
            (done >> onUrl o (URLSubmitForm.setError (Some text))
             >> surface (Component o) text
             >> onUrl o (URLSubmitForm.setLoading false)) s
        | GenerateCall _ selected, inr (PGenerate response) =>
            (done >> setApp (generateSucceeded selected response)) s
        | GenerateCall _ _, inl e =>
            let text := Api.catchText generateFailPrefix generateFailGeneric e in
            (done >> setError (Some text) >> surface Container text) s
        | UploadCall o _, inr (PReels links) =>
            (done >> container (handleUploadSuccess links)
             >> onUpload o (UploadReelsForm.setLoading false)) s
        | UploadCall o _, inl e =>
            let text := Api.catchText UploadReelsForm.uploadFailPrefix
                          UploadReelsForm.uploadFailGeneric e in
            (done >> onUpload o (UploadReelsForm.setError (Some text))
             >> surface (Component o) text
             >> onUpload o (UploadReelsForm.setLoading false)) s
        | FollowersCall o, inr (PFollowers l) =>
            (done >> onDm o (DMFollowersForm.setFollowers l)
             >> onDm o (DMFollowersForm.setError None)
             >> onDm o (DMFollowersForm.setLoadingFollowers false)) s
        | FollowersCall o, inl e =>
            let text := Api.catchText DMFollowersForm.followersFailPrefix
                          DMFollowersForm.followersFailGeneric e in
            (done >> onDm o (DMFollowersForm.setError (Some text))
             >> surface (Component o) text
             >> onDm o (DMFollowersForm.setLoadingFollowers false)) s
        | DmCall o _ _, inr (PDmStatus m) =>
            (done >> onDm o (DMFollowersForm.setDmResults (Some m))
             >> onDm o (DMFollowersForm.setSendingDMs false)) s
        | DmCall o _ _, inl e =>
            let text := Api.catchText DMFollowersForm.dmFailPrefix
                          DMFollowersForm.dmFailGeneric e in
            (done >> onDm o (DMFollowersForm.setError (Some text))
             >> surface (Component o) text
             >> onDm o (DMFollowersForm.setSendingDMs false)) s
        | _, inr _ => (s, [])
        end
    end.

Definition handle (ev : Event) : Act :=
  λ s,
    match ev with
    | StreamEvent k e => streamEvent k e s
    | Settle i r => settle i r s
    | _ =>
        match child s with
        | CUrl f => urlEvent ev f s
        | CSelect h => selectEvent ev h s
        | CJob j => jobEvent ev j s
        | CUpload u => uploadEvent ev u s
        | CDm d => dmEvent ev d s
        | CComplete => completeEvent ev s
        | CNone => (s, [])
        end
    end.

(** One turn of the event loop: the handler, then React commits. *)
Definition step (s : Sys) (ev : Event) : Sys * list Effect :=
  (handle ev >> commit) s.

Fixpoint run (s : Sys) (evs : list Event) : Sys * list Effect :=
  match evs with
  | [] => (s, [])
  | ev :: rest =>
      let '(s1, e1) := step s ev in
      let '(s2, e2) := run s1 rest in
      (s2, e1 ++ e2)
  end.

Definition initial : Sys :=
  {| app := initialAppState; error := None;
     child := CUrl URLSubmitForm.initialState;
     inst := 0; mounts := 1; inflight := []; streams := [] |}.

(** *** Observations used in the statements *)

Definition ids (l : list HighlightSegment) : list string := id_ <$> l.

(** [chosenSegments] is a subset of [candidateSegments] by identifier. *)
Definition chosenWithinCandidates (a : AppState) : Prop :=
  ids (selectedHighlights a) ⊆ ids (highlights a).

Definition within (l candidates : list HighlightSegment) : bool :=
  forallb (λ h, bool_decide (id_ h ∈ ids candidates)) l.

Definition selectionOf (c : Call) : option (list HighlightSegment) :=
  match c with GenerateCall _ sel => Some sel | _ => None end.

(** The selections of the generation requests still in flight. *)
Definition pendingSelections (s : Sys) : list (list HighlightSegment) :=
  omap selectionOf (inflight s).

(** The event does not take candidates away from under a choice: an
    extraction result contains the identifiers of the segments chosen or
    submitted for generation so far, and a new campaign is not started
    over a generation request still in flight. *)
Definition keepsChoice (s : Sys) (ev : Event) : bool :=
  match ev with
  | Settle i (Api.Ok (PHighlights data)) =>
      match inflight s !! i with
      | Some (ExtractCall _ _ _ _) =>
          within (selectedHighlights (app s)) (Types.highlights data)
          && forallb (λ sel, within sel (Types.highlights data))
               (pendingSelections s)
      | _ => true
      end
  | ClickStartNew =>
      match child s with
      | CComplete => forallb (λ sel, within sel []) (pendingSelections s)
      | _ => true
      end
  | _ => true
  end.

Fixpoint choiceKept (s : Sys) (evs : list Event) : bool :=
  match evs with
  | [] => true
  | ev :: rest => keepsChoice s ev && choiceKept (step s ev).1 rest
  end.




(** The mounted component is the one [StepContainer] renders, and the
    effect of a mounted JobStatusStream has installed its closure. *)
Definition consistent (s : Sys) : Prop :=
  childSlot (child s) = slotOf (app s)
  ∧ ∀ j, child s = CJob j →
      ∃ sup, streams s !! JobStatusStream.effect j = Some sup
             ∧ installedBy sup = inst s
             ∧ jobId (app s) = Some (forJob sup).

Definition releases (l : list Effect) : list nat :=
  omap (λ e, match e with Released k => Some k | _ => None end) l.
Definition attaches (l : list Effect) : list (nat * string) :=
  omap (λ e, match e with Attached k job => Some (k, job) | _ => None end) l.
Definition callsIssued (l : list Effect) : list Call :=
  omap (λ e, match e with Called c => Some c | _ => None end) l.


(** *** The vocabulary of the invariants *)

(** What [commit] and the effect machinery leave alone. *)
Definition framed (s s' : Sys) : Prop :=
  app s' = app s ∧ error s' = error s
  ∧ (inflight s' = inflight s
     ∨ ∃ o, inflight s' = inflight s ++ [FollowersCall o]).

(** The effects of mounting and unmounting. *)
Definition lifecycle (e : Effect) : Prop :=
  match e with
  | Called (FollowersCall _) | Attached _ _ | Released _ | StreamAct _ _ => True
  | _ => False
  end.

(** Who installed which closure for which job. *)
Definition skeleton (s : Sys) : list (nat * string) :=
  (λ sup, (installedBy sup, forJob sup)) <$> streams s.

(** What no handler touches: instance numbers, the kind of the mounted
    component, the closure its effect installed, and the skeleton. *)
Definition steady (s s' : Sys) : Prop :=
  inst s' = inst s ∧ mounts s' = mounts s
  ∧ childSlot (child s') = childSlot (child s)
  ∧ (∀ j, child s = CJob j → ∃ j', child s' = CJob j'
        ∧ JobStatusStream.effect j' = JobStatusStream.effect j)
  ∧ skeleton s' = skeleton s.

(** The part of [consistent] that does not look at the campaign state. *)
Definition installed (s : Sys) : Prop :=
  ∀ j, child s = CJob j →
    ∃ sup, streams s !! JobStatusStream.effect j = Some sup
           ∧ installedBy sup = inst s.

(** The chosen segments and every selection submitted for generation
    lie within the candidates. *)
Definition choiceInv (s : Sys) : Prop :=
  within (selectedHighlights (app s)) (highlights (app s)) = true
  ∧ Forall (λ sel, within sel (highlights (app s)) = true) (pendingSelections s).


End StepContainer.

(** ** The scenarios of the specification, as event sequences *)

Module Scenario.

Import StepContainer.

Definition h1 : HighlightSegment :=
  {| id_ := "h1"; start_time := "00:00:10,000"; end_time := "00:01:00,000";
     title := "Hook" |}.
Definition h2 : HighlightSegment :=
  {| id_ := "h2"; start_time := "00:02:00,000"; end_time := "00:02:30,000";
     title := "Twist" |}.

Definition extracted (l : list HighlightSegment) : HighlightsResponse :=
  {| video_id := "v1"; Types.highlights := l; total_count := length l |}.
Definition started (job : string) : GenerateVideoResponse :=
  {| job_id := job; gen_status := queued; message := "ok" |}.
Definition update (st : JobStatus) (p : option Z) (videos : list string)
  : JobStreamUpdate :=
  {| upd_job_id := "j1"; status := st; progress := p; current_task := None;
     finished_videos := videos; error_message := None;
     created_at := "2025-01-01T00:00:00"; updated_at := "2025-01-01T00:00:05" |}.

(** Submit a URL; the extraction answers with [h1]. *)
Definition toSelect : list Event :=
  [TypeUrl "https://youtu.be/abc"; Submit;
   Settle 0 (Api.Ok (PHighlights (extracted [h1])))].

(** Select [h1] and generate; the job is [j1]. *)
Definition toJobStatus : list Event :=
  toSelect ++ [ToggleHighlight "h1"; ClickGenerate;
               Settle 0 (Api.Ok (PGenerate (started "j1")))].

(** The stream opens and delivers [generating] at 40, then [finished]
    with one video. *)
Definition toFinished : list Event :=
  toJobStatus ++
  [StreamEvent 0 (Stream.OnOpen 0);
   StreamEvent 0 (Stream.OnMessage 0 (Some (update generating (Some 40%Z) [])));
   StreamEvent 0 (Stream.OnMessage 0
                    (Some (update finished None ["out/a.mp4"])))].

(** Continue to the upload step. *)
Definition toUpload : list Event := toFinished ++ [ClickContinueToUpload].

(** From job-status back to url-submit, and a second extraction that
    answers with [h2]. *)
Definition extractAgain : list Event :=
  toJobStatus ++
  [ClickBack; ClickBack; TypeUrl "https://youtu.be/xyz"; Submit;
   Settle 0 (Api.Ok (PHighlights (extracted [h2])))].

(** In job-status, the first source fails and the reconnection opens. *)
Definition toReconnected : list Event :=
  toJobStatus ++
  [StreamEvent 0 (Stream.OnError 0); StreamEvent 0 (Stream.TimerFired 0);
   StreamEvent 0 (Stream.OnOpen 1)].

(** The user goes back, and the stream of [j1] sends one more update. *)
Definition leaveThenUpdate (u : JobStreamUpdate) : list Event :=
  [ClickBack; StreamEvent 0 (Stream.OnMessage 1 (Some u))].

(** Two clicks on "Generate" before the first answer. *)
Definition generateTwice : list Event :=
  toSelect ++ [ToggleHighlight "h1"; ClickGenerate; ClickGenerate].

(** Both requests of [generateTwice] are answered, the first with
    [j1], the second with [j2] after the stream of [j1] has reconnected;
    then the stream of [j1] reports [finished] and the user continues. *)
Definition staleUpdate : list Event :=
  generateTwice ++
  [Settle 0 (Api.Ok (PGenerate (started "j1")));
   StreamEvent 0 (Stream.OnError 0); StreamEvent 0 (Stream.TimerFired 0);
   StreamEvent 0 (Stream.OnOpen 1);
   Settle 0 (Api.Ok (PGenerate (started "j2")));
   StreamEvent 0 (Stream.OnMessage 1
                    (Some (update finished None ["out/a.mp4"])));
   ClickContinueToUpload].

End Scenario.

(** * Properties *)

(** ** The stream supervisor *)

Section StreamFacts.
Import Stream.

Lemma allOff_not_live (l : list bool) (i : nat) :
  allOff l → bool_decide (l !! i = Some true) = false.
Proof.
  intros H. apply bool_decide_eq_false. intros Hi.
  unfold allOff in H. rewrite Forall_lookup in H. by specialize (H _ _ Hi).
Qed.

Lemma allOff_insert (l : list bool) (i : nat) :
  allOff l → allOff (<[i := false]> l).
Proof. intros H. by apply Forall_insert. Qed.

Lemma allOff_replicate (n : nat) : allOff (replicate n false).
Proof. unfold allOff. apply Forall_replicate. done. Qed.

Lemma last_on_lookup (n i : nat) :
  (replicate n false ++ [true]) !! i = Some true ↔ i = n.
Proof.
  revert i. induction n as [|n IH]; intros [|i]; simpl; [done|..].
  - rewrite lookup_nil. split; discriminate.
  - split; discriminate.
  - rewrite IH. split; [by intros ->|by intros [= ->]].
Qed.

Lemma last_on_close (n : nat) :
  <[n := false]> (replicate n false ++ [true]) = replicate (S n) false.
Proof.
  rewrite insert_app_r_alt by (rewrite length_replicate; lia).
  rewrite length_replicate, Nat.sub_diag. simpl.
  by rewrite <- replicate_S_end.
Qed.

Lemma allOff_replicate_eq (l : list bool) :
  allOff l → l = replicate (length l) false.
Proof.
  induction 1 as [|b l Hb _ IH]; simpl; [done|]. by rewrite Hb, <- IH.
Qed.

Lemma last_on_closed (n : nat) :
  allOff (<[n := false]> (replicate n false ++ [true])).
Proof. rewrite last_on_close. apply allOff_replicate. Qed.

Lemma last_on_close_other (n i : nat) :
  i ≠ n → <[i := false]> (replicate n false ++ [true]) = replicate n false ++ [true].
Proof.
  intros Hne. destruct (decide (i < n)%nat) as [Hlt|Hge].
  - rewrite insert_app_l by (rewrite length_replicate; lia).
    f_equal. apply list_insert_id. apply lookup_replicate. done.
  - apply list_insert_ge. rewrite length_app, length_replicate. simpl. lia.
Qed.

Lemma connected_live (st : State) (c i : nat) :
  connected st c → isLive st i = true ↔ i = c.
Proof.
  intros (Hs & _ & _). unfold isLive. rewrite bool_decide_eq_true, Hs.
  apply last_on_lookup.
Qed.

Lemma connected_no_timer (st : State) (c t : nat) :
  connected st c → isPending st t = false.
Proof. intros (_ & Ht & _). by apply allOff_not_live. Qed.

Lemma waiting_not_live (st : State) (t c : nat) :
  waiting st t → isLive st c = false.
Proof. intros (Hs & _). by apply allOff_not_live. Qed.

Lemma waiting_pending (st : State) (t i : nat) :
  waiting st t → isPending st i = true ↔ i = t.
Proof.
  intros (_ & Ht & _). unfold isPending. rewrite bool_decide_eq_true, Ht.
  apply last_on_lookup.
Qed.

Lemma idle_quiet (st : State) (ev : Event) :
  idle st → ev ≠ Cleanup → step st ev = (st, []).
Proof.
  intros [Hs Ht] Hev. destruct ev; simpl; try done;
    unfold isLive, isPending; by rewrite allOff_not_live.
Qed.

Lemma idle_cleanup (st : State) :
  idle st → idle (cleanup st).1 ∧ Forall housekeeping (cleanup st).2.
Proof.
  intros [Hs Ht]. unfold cleanup. destruct (retryTimeout st) as [t|]; simpl.
  - split; [split; simpl; by apply allOff_insert|].
    repeat constructor; eexists; eauto.
  - split; [split; simpl; [by apply allOff_insert|done]|].
    repeat constructor; eexists; eauto.
Qed.

Lemma retrying_not_terminal (n : nat) : retryingText n ≠ terminalErrorText.
Proof. unfold retryingText, terminalErrorText. simpl. discriminate. Qed.

Lemma count_app (p : Action → bool) (l1 l2 : list Action) :
  count p (l1 ++ l2) = (count p l1 + count p l2)%nat.
Proof. unfold count. by rewrite filter_app, length_app. Qed.

Lemma count_cons (p : Action → bool) (a : Action) (l : list Action) :
  count p (a :: l) = ((if p a then 1 else 0) + count p l)%nat.
Proof.
  unfold count. rewrite filter_cons.
  destruct (decide (p a = true)) as [E|E]; destruct (p a); simpl; congruence.
Qed.

Lemma terminal_retrying (n : nat) : isTerminal (SetError (Some (retryingText n))) = false.
Proof.
  unfold isTerminal. apply bool_decide_eq_false_2.
  intros H. inversion H.
Qed.

(** A failure of the open source: a retry is scheduled while the counter
    is below the bound, the terminal error is reported otherwise. *)
Lemma connected_error_retry (st : State) (c : nat) :
  connected st c → (retryCount st < maxRetries)%nat →
  ∃ st', step st (OnError c) =
      (st', [EsClose c; SetError (Some (retryingText (S (retryCount st))));
             SetTimeout (length (timers st)) (backoffUnit * S (retryCount st))])
    ∧ waiting st' (length (timers st)) ∧ retryCount st' = S (retryCount st)
    ∧ length (sources st') = S c ∧ length (timers st') = S (length (timers st)).
Proof.
  intros Hc Hlt. pose proof Hc as (Hs & Ht & He).
  simpl. rewrite (proj2 (connected_live st c c Hc) eq_refl).
  unfold onerror. rewrite bool_decide_eq_true_2 by done.
  eexists; split; [reflexivity|]. simpl.
  repeat split; simpl; try done.
  - rewrite Hs. apply last_on_closed.
  - f_equal. by apply allOff_replicate_eq.
  - rewrite length_insert, Hs, length_app, length_replicate. simpl. lia.
  - rewrite length_app. simpl. lia.
Qed.

Lemma connected_error_terminal (st : State) (c : nat) :
  connected st c → ¬ (retryCount st < maxRetries)%nat →
  ∃ st', step st (OnError c) =
      (st', [EsClose c; SetError (Some terminalErrorText)])
    ∧ idle st'.
Proof.
  intros Hc Hge. pose proof Hc as (Hs & Ht & He).
  simpl. rewrite (proj2 (connected_live st c c Hc) eq_refl).
  unfold onerror. rewrite bool_decide_eq_false_2 by done.
  eexists; split; [reflexivity|]. split; simpl; [|done].
  rewrite Hs. apply last_on_closed.
Qed.

Lemma waiting_fire (st : State) (t : nat) :
  waiting st t →
  ∃ st', step st (TimerFired t) = (st', [CreateJobStream (length (sources st))])
    ∧ connected st' (length (sources st)) ∧ retryCount st' = retryCount st
    ∧ length (timers st') = length (timers st).
Proof.
  intros Hw. pose proof Hw as (Hs & Ht & Hr & He).
  simpl. rewrite (proj2 (waiting_pending st t t Hw) eq_refl).
  unfold connectToStream. simpl.
  eexists; split; [reflexivity|]. repeat split; simpl; try done.
  - f_equal. by apply allOff_replicate_eq.
  - rewrite Ht. apply last_on_closed.
  - by rewrite length_insert.
Qed.


Lemma connected_length (st : State) (c : nat) :
  connected st c → length (sources st) = S c.
Proof.
  intros (Hs & _). rewrite Hs, length_app, length_replicate. simpl. lia.
Qed.

Lemma shape_step (st : State) (ev : Event) : Shape st → Shape (step st ev).1.
Proof.
  intros [c Hc|t Hw|Hi].
  - pose proof Hc as (Hs & Ht & He). destruct ev as [i|i d|i|i|]; simpl.
    + destruct (isLive st i) eqn:E; [|by eapply IsConnected].
      by apply (IsConnected _ c).
    + destruct (isLive st i) eqn:E; [|by eapply IsConnected].
      destruct d; by apply (IsConnected _ c).
    + destruct (isLive st i) eqn:E; [|by eapply IsConnected].
      apply (connected_live st c i Hc) in E as ->.
      destruct (decide (retryCount st < maxRetries)%nat) as [Hlt|Hge].
      * destruct (connected_error_retry st c Hc Hlt) as (st' & Hst & Hw & _).
        simpl in Hst. rewrite (proj2 (connected_live st c c Hc) eq_refl) in Hst.
        rewrite Hst. by eapply IsWaiting.
      * destruct (connected_error_terminal st c Hc Hge) as (st' & Hst & Hi).
        simpl in Hst. rewrite (proj2 (connected_live st c c Hc) eq_refl) in Hst.
        rewrite Hst. by apply IsIdle.
    + rewrite (connected_no_timer st c i Hc). by eapply IsConnected.
    + unfold cleanup.
      assert (Hc' : ∀ tm rt, allOff tm →
        Shape {| retryCount := retryCount st; retryTimeout := rt;
                 sources := <[eventSource st := false]> (sources st);
                 timers := tm; eventSource := eventSource st |}).
      { intros tm rt Htm. rewrite He, Hs. destruct (decide (0 = c)) as [<-|Hne].
        - apply IsIdle. split; simpl; [|done]. apply (last_on_closed 0).
        - apply (IsConnected _ c). rewrite last_on_close_other by done.
          by repeat split. }
      destruct (retryTimeout st); simpl; apply Hc'; [by apply allOff_insert|done].
  - pose proof Hw as (Hs & Ht & Hr & He). destruct ev as [i|i d|i|i|]; simpl.
    + rewrite (waiting_not_live st t i Hw). by eapply IsWaiting.
    + rewrite (waiting_not_live st t i Hw). by eapply IsWaiting.
    + rewrite (waiting_not_live st t i Hw). by eapply IsWaiting.
    + destruct (isPending st i) eqn:E; [|by eapply IsWaiting].
      apply (waiting_pending st t i Hw) in E as ->.
      destruct (waiting_fire st t Hw) as (st' & Hst & Hc & _).
      simpl in Hst. rewrite (proj2 (waiting_pending st t t Hw) eq_refl) in Hst.
      rewrite Hst. by eapply IsConnected.
    + unfold cleanup. rewrite Hr. simpl. apply IsIdle. split; simpl.
      * by apply allOff_insert.
      * rewrite Ht. apply last_on_closed.
  - destruct (decide (ev = Cleanup)) as [->|Hne].
    + apply IsIdle. simpl. by apply idle_cleanup.
    + rewrite idle_quiet by done. by apply IsIdle.
Qed.

Lemma housekeeping_count (p : Action → bool) (acts : list Action) :
  (∀ i, p (ClearTimeout i) = false) → (∀ i, p (EsClose i) = false) →
  Forall housekeeping acts → count p acts = 0.
Proof.
  intros H1 H2. unfold count. induction 1 as [|a l [i [->| ->]] _ IH]; [done|..];
    rewrite filter_cons_False; auto; rewrite ?H1, ?H2; done.
Qed.

Lemma idle_run (st : State) (evs : list Event) :
  idle st → idle (run st evs).1 ∧ Forall housekeeping (run st evs).2.
Proof.
  revert st. induction evs as [|ev evs IH]; intros st Hi; simpl; [done|].
  destruct (step st ev) as [st1 a1] eqn:E1.
  destruct (run st1 evs) as [st2 a2] eqn:E2.
  assert (idle st1 ∧ Forall housekeeping a1) as [Hi1 Ha1].
  { destruct (decide (ev = Cleanup)) as [->|Hne].
    - simpl in E1. destruct (idle_cleanup st Hi) as [H1 H2].
      by rewrite E1 in H1, H2.
    - rewrite idle_quiet in E1 by done. by simplify_eq. }
  destruct (IH st1 Hi1) as [H1 H2]. rewrite E2 in H1, H2. simpl in *.
  split; [done|]. by apply Forall_app.
Qed.


Lemma run_app (st : State) (e1 e2 : list Event) :
  run st (e1 ++ e2) =
    let '(st1, a1) := run st e1 in
    let '(st2, a2) := run st1 e2 in (st2, a1 ++ a2).
Proof.
  revert st. induction e1 as [|ev e1 IH]; intros st; simpl.
  - by destruct (run st e2).
  - destruct (step st ev) as [st1 a1]. rewrite IH.
    destruct (run st1 e1) as [st2 a2]. destruct (run st2 e2) as [st3 a3].
    by rewrite app_assoc.
Qed.

Lemma scheduledDelays_app (l1 l2 : list Action) :
  scheduledDelays (l1 ++ l2) = scheduledDelays l1 ++ scheduledDelays l2.
Proof. apply omap_app. Qed.

(** [k] failures in a row that stay within the bound: [k] timers with
    linearly growing delays, [k] new sources, nothing terminal. *)
Lemma failing_run (k : nat) (st : State) (c : nat) :
  connected st c → (retryCount st + k ≤ maxRetries)%nat →
  ∃ st' acts, run st (failing c (length (timers st)) k) = (st', acts)
    ∧ connected st' (c + k) ∧ retryCount st' = (retryCount st + k)%nat
    ∧ scheduledDelays acts
        = (λ n, backoffUnit * (retryCount st + n))%nat <$> seq 1 k
    ∧ count isCreate acts = k ∧ count isTerminal acts = 0.
Proof.
  revert st c. induction k as [|k IH]; intros st c Hc Hle.
  - exists st, []. simpl. rewrite !Nat.add_0_r. split_and!; done.
  - destruct (connected_error_retry st c Hc) as (st1 & E1 & Hw & Hr1 & Hl1 & Ht1);
      [lia|].
    destruct (waiting_fire st1 _ Hw) as (st2 & E2 & Hc2 & Hr2 & Ht2).
    rewrite Hl1 in E2, Hc2.
    destruct (IH st2 (S c) Hc2) as (st3 & a3 & E3 & Hc3 & Hr3 & Hd3 & Hn3 & Hz3);
      [lia|].
    rewrite Ht2, Ht1 in E3.
    eexists _, _. split.
    { cbn [failing run]. rewrite E1, E2, E3. reflexivity. }
    split; [by replace (c + S k)%nat with (S c + k)%nat by lia|].
    split; [lia|].
    split.
    { rewrite !scheduledDelays_app, Hd3. cbn [seq fmap list_fmap].
      change (scheduledDelays [CreateJobStream (S c)]) with (@nil nat).
      change (scheduledDelays [EsClose c; SetError (Some (retryingText (S (retryCount st))));
        SetTimeout (length (timers st)) (backoffUnit * S (retryCount st))])
        with [(backoffUnit * S (retryCount st))%nat].
      cbn [app]. f_equal; [f_equal; lia|].
      rewrite <- (fmap_S_seq 1 k), <- list_fmap_compose.
      apply list_fmap_ext. intros _ n _. unfold compose.
      rewrite Hr2, Hr1. f_equal. lia. }
    split.
    { simpl. rewrite !count_cons. simpl. by rewrite Hn3. }
    simpl. rewrite !count_cons, terminal_retrying. simpl. by rewrite Hz3.
Qed.

Lemma step_terminal (st : State) (ev : Event) :
  Shape st →
  count isTerminal (step st ev).2 = 0
  ∨ (count isTerminal (step st ev).2 = 1 ∧ idle (step st ev).1).
Proof.
  intros [c Hc|t Hw|Hi].
  - destruct ev as [i|i d|i|i|]; simpl.
    + left. by destruct (isLive st i).
    + left. destruct (isLive st i); [|done]. by destruct d.
    + destruct (isLive st i) eqn:E; [|by left].
      apply (connected_live st c i Hc) in E as ->.
      destruct (decide (retryCount st < maxRetries)%nat) as [Hlt|Hge].
      * left. unfold onerror. rewrite bool_decide_eq_true_2 by done.
        simpl. by rewrite !count_cons, terminal_retrying.
      * right. destruct (connected_error_terminal st c Hc Hge) as (st' & Hst & Hi).
        simpl in Hst. rewrite (proj2 (connected_live st c c Hc) eq_refl) in Hst.
        rewrite Hst. split; [|done]. reflexivity.
    + left. by rewrite (connected_no_timer st c i Hc).
    + left. unfold cleanup. by destruct (retryTimeout st).
  - left. destruct ev as [i|i d|i|i|]; simpl;
      rewrite ?(waiting_not_live st t i Hw); try done.
    + by destruct (isPending st i).
    + unfold cleanup. by destruct (retryTimeout st).
  - left. destruct (idle_run st [ev] Hi) as [_ H]. simpl in H.
    destruct (step st ev) as [st1 a1]. rewrite app_nil_r in H. simpl.
    by apply housekeeping_count.
Qed.

(** Whatever the browser does, a closure reports the terminal error at
    most once, and after it nothing but housekeeping happens. *)
Lemma terminal_at_most_once (evs : list Event) (st : State) :
  Shape st → (count isTerminal (run st evs).2 ≤ 1)%nat.
Proof.
  revert st. induction evs as [|ev evs IH]; intros st Hs; simpl.
  { unfold count. simpl. lia. }
  pose proof (shape_step st ev Hs) as Hs1.
  pose proof (step_terminal st ev Hs) as Ht.
  destruct (step st ev) as [st1 a1]. simpl in Hs1, Ht.
  specialize (IH st1 Hs1). pose proof (idle_run st1 evs) as Hq.
  destruct (run st1 evs) as [st2 a2]. simpl in *. rewrite count_app.
  destruct Ht as [H0|[H1 Hi]]; [lia|].
  destruct (Hq Hi) as [_ Hq'].
  rewrite (housekeeping_count isTerminal a2); [lia|done..].
Qed.


Lemma attach_connected : connected attach.1 0.
Proof. split_and!; [done|constructor|done]. Qed.

(** The cleanup does its job as long as no reconnection has taken
    place: with the first source open, or during a backoff wait, it
    leaves the closure idle, hence silent for good. *)
Lemma cleanup_before_reconnect (st : State) :
  connected st 0 ∨ (∃ t, waiting st t) →
  idle (cleanup st).1
  ∧ ∀ evs, count isSetStatus (run (cleanup st).1 evs).2 = 0
           ∧ count isCreate (run (cleanup st).1 evs).2 = 0.
Proof.
  intros H. assert (Hi : idle (cleanup st).1).
  { destruct H as [(Hs & Ht & He)|[t (Hs & Ht & Hr & He)]]; unfold cleanup.
    - rewrite He, Hs. destruct (retryTimeout st); split; simpl;
        try apply (last_on_closed 0); try done. by apply allOff_insert.
    - rewrite Hr. split; simpl; [by apply allOff_insert|].
      rewrite Ht. apply last_on_closed. }
  split; [done|]. intros evs. destruct (idle_run _ evs Hi) as [_ Hq].
  split; by apply housekeeping_count.
Qed.

(** After a reconnection the cleanup closes the first source again and
    leaves the open one alone. *)
Lemma cleanup_keeps_later_source (st : State) (c : nat) :
  connected st c → (0 < c)%nat →
  connected (cleanup st).1 c
  ∧ ∀ u, (step (cleanup st).1 (OnMessage c (Some u))).2
         = [SetStatus u; SetError None].
Proof.
  intros Hc Hpos. pose proof Hc as (Hs & Ht & He).
  assert (Hc' : connected (cleanup st).1 c).
  { unfold cleanup. rewrite He, Hs.
    rewrite last_on_close_other by lia.
    destruct (retryTimeout st); split_and!; simpl; try done.
    by apply allOff_insert. }
  split; [done|]. intros u. simpl.
  by rewrite (proj2 (connected_live _ c c Hc') eq_refl).
Qed.

(** C3. An open acknowledgment resets the retry counter to zero,
    whatever it was, and keeps the source that acknowledged as the one
    open source. With the counter at zero (after an acknowledgment, or
    in a fresh closure), four failures in a row (the open source and the
    three reconnections that replace it) produce three reconnections and
    one terminal error, reported at the fourth failure, and leave the
    closure idle: whatever happens next, it neither reconnects nor
    reports again; only a new closure, with a fresh counter, connects
    again. On every run a closure reports the terminal error at most
    once. *)
Theorem retry_counter_and_terminal_error (st : State) (c : nat)
    (Hc : connected st c) (Hr : retryCount st = 0) :
  (∀ st' c', isLive st' c' = true →
     retryCount (step st' (OnOpen c')).1 = 0)
  ∧ (∀ st' c', connected st' c' →
       connected (step st' (OnOpen c')).1 c')
  ∧ (∃ st' acts,
       run st
         (failing c (length (timers st)) 3
          ++ [OnError (c + 3)]) = (st', acts)
       ∧ count isCreate acts = 3
       ∧ count isTerminal acts = 1
       ∧ last acts = Some (SetError (Some terminalErrorText))
       ∧ idle st'
       ∧ ∀ evs, count isCreate (run st' evs).2 = 0
                ∧ count isTerminal (run st' evs).2 = 0)
  ∧ (∀ evs, (count isTerminal (run st evs).2 ≤ 1)%nat).
Proof.
  split_and!.
  - intros st' c' Hl. simpl. by rewrite Hl.
  - intros st' c' Hc'. simpl.
    rewrite (proj2 (connected_live st' c' c' Hc') eq_refl).
    destruct Hc' as (? & ? & ?). by split_and!.
  - destruct (failing_run 3 st c Hc)
      as (st3 & a3 & E3 & Hc3 & Hr3 & _ & Hn3 & Hz3).
    { rewrite Hr. unfold maxRetries. lia. }
    destruct (connected_error_terminal st3 (c + 3) Hc3) as (st4 & E4 & Hi4).
    { rewrite Hr3, Hr. unfold maxRetries. lia. }
    eexists _, _. split.
    { rewrite run_app, E3. cbn [run]. rewrite E4. reflexivity. }
    split_and!.
    + rewrite count_app, Hn3. reflexivity.
    + rewrite count_app, Hz3. reflexivity.
    + rewrite last_app. reflexivity.
    + done.
    + intros evs. destruct (idle_run st4 evs Hi4) as [_ Hq].
      split; by apply housekeeping_count.
  - intros evs. apply terminal_at_most_once. by eapply IsConnected.
Qed.

Lemma retry_counter_and_terminal_error_witness :
  connected attach.1 0
  ∧ retryCount attach.1 = 0
  ∧ retryCount (step attach.1 (OnOpen 0)).1 = 0
  ∧ ∀ evs, (count isTerminal
              (run attach.1 evs).2 ≤ 1)%nat.
Proof.
  assert (H : connected attach.1 0)
    by (split_and!; [reflexivity|constructor|reflexivity]).
  assert (H0 : retryCount attach.1 = 0) by reflexivity.
  split; [exact H|]. split; [exact H0|].
  pose proof (retry_counter_and_terminal_error attach.1 0 H H0)
    as (H1 & _ & _ & H3).
  split; [|exact H3]. apply H1. reflexivity.
Defined.

(** C7. From a state with one open source and retry counter [r], [k]
    failures in a row that stay within the bound of three retries
    schedule exactly [k] reconnections, the [n]-th of them after
    [r + n] backoff units: one, two and three units after an open
    acknowledgment. *)
Theorem backoff_is_linear (st : State) (c k : nat)
    (Hc : connected st c)
    (Hk : (retryCount st + k ≤ maxRetries)%nat) :
  let acts := (run st (failing c (length (timers st)) k)).2 in
  scheduledDelays acts
    = (λ n, backoffUnit * (retryCount st + n))%nat <$> seq 1 k
  ∧ count isCreate acts = k.
Proof.
  destruct (failing_run k st c Hc Hk) as (st' & acts' & E & _ & _ & Hd & Hn & _).
  intros acts. subst acts. rewrite E. by split.
Qed.

Lemma backoff_is_linear_witness :
  connected attach.1 0
  ∧ (retryCount attach.1 + 3 ≤ maxRetries)%nat
  ∧ scheduledDelays
      (run attach.1 (failing 0 0 3)).2
    = [backoffUnit; 2 * backoffUnit; 3 * backoffUnit].
Proof.
  assert (H : connected attach.1 0)
    by (split_and!; [reflexivity|constructor|reflexivity]).
  assert (H' : (retryCount attach.1 + 3 ≤ maxRetries)%nat)
    by (vm_compute; lia).
  split; [exact H|]. split; [exact H'|].
  exact (proj1 (backoff_is_linear attach.1 0 3 H H')).
Defined.

End StreamFacts.

(** ** Titles of the upload form *)

Section UploadFacts.
Import UploadReelsForm.











End UploadFacts.

(** ** The campaign *)

Ltac act_unfold :=
  unfold StepContainer.andThen, StepContainer.skip, StepContainer.emit, StepContainer.setApp, StepContainer.setError,
    StepContainer.setChild, StepContainer.setInflight, StepContainer.setStreams, StepContainer.newInstance,
    StepContainer.container, StepContainer.call, StepContainer.onUrl, StepContainer.onUpload, StepContainer.onDm, StepContainer.onJob,
    StepContainer.surface in *.

Ltac handler_unfold :=
  unfold StepContainer.handle, StepContainer.urlEvent, StepContainer.selectEvent, StepContainer.jobEvent,
    StepContainer.uploadEvent, StepContainer.dmEvent, StepContainer.completeEvent, StepContainer.streamEvent,
    StepContainer.settle in *.

Ltac crush :=
  repeat (first
    [ progress (simpl in * )
    | progress act_unfold
    | progress simplify_eq
    | case_match ]).

Ltac steady_tac :=
  split_and!; try done;
  try (intros ? ?; simplify_eq; eauto);
  try (match goal with H : StepContainer.child _ = _ |- _ => by rewrite H end).

Section CampaignFacts.
Import StepContainer.

Lemma release_spec (k : nat) (s : Sys) :
  app (release k s).1 = app s ∧ error (release k s).1 = error s
  ∧ child (release k s).1 = child s ∧ inst (release k s).1 = inst s
  ∧ mounts (release k s).1 = mounts s
  ∧ inflight (release k s).1 = inflight s
  ∧ length (streams (release k s).1) = length (streams s)
  ∧ Forall lifecycle (release k s).2.
Proof.
  unfold release. destruct (streams s !! k) as [sup|]; [|by split_and!].
  destruct (Stream.cleanup (closure sup)) as [st acts]. act_unfold. simpl.
  split_and!; try done.
  - by rewrite length_insert.
  - constructor; [done|]. apply Forall_fmap, Forall_true. done.
Qed.

Lemma attach_spec (job : string) (s : Sys) :
  app (attach job s).1 = app s ∧ error (attach job s).1 = error s
  ∧ inst (attach job s).1 = inst s
  ∧ mounts (attach job s).1 = mounts s
  ∧ inflight (attach job s).1 = inflight s
  ∧ streams (attach job s).1
    = streams s ++ [{| installedBy := inst s; forJob := job;
                       closure := Stream.attach.1 |}]
  ∧ child (attach job s).1
    = match child s with
      | CJob j => CJob (JobStatusStream.setEffect (length (streams s)) j)
      | c => c
      end
  ∧ (attach job s).2
    = [Attached (length (streams s)) job;
       StreamAct (length (streams s)) (Stream.CreateJobStream 0)].
Proof.
  unfold attach. act_unfold. simpl.
  destruct (child s); simpl; try (by split_and!).
  rewrite decide_True by done. by split_and!.
Qed.

Lemma deliverAll_spec (k owner : nat) (acts : list Stream.Action) (s : Sys) :
  app (deliverAll k owner acts s).1 = app s
  ∧ error (deliverAll k owner acts s).1 = error s
  ∧ inst (deliverAll k owner acts s).1 = inst s
  ∧ mounts (deliverAll k owner acts s).1 = mounts s
  ∧ inflight (deliverAll k owner acts s).1 = inflight s
  ∧ streams (deliverAll k owner acts s).1 = streams s
  ∧ childSlot (child (deliverAll k owner acts s).1) = childSlot (child s)
  ∧ (∀ j, child s = CJob j → ∃ j', child (deliverAll k owner acts s).1 = CJob j'
        ∧ JobStatusStream.effect j' = JobStatusStream.effect j)
  ∧ (deliverAll k owner acts s).2 = StreamAct k <$> acts.
Proof.
  revert s. induction acts as [|a acts IH]; intros s; [by split_and!; eauto|].
  cbn [deliverAll fold_right]. fold (deliverAll k owner acts).
  unfold andThen.
  destruct (deliver k owner a s) as [s1 e1] eqn:E1.
  specialize (IH s1). destruct (deliverAll k owner acts s1) as [s2 e2]. simpl in *.
  assert (app s1 = app s ∧ error s1 = error s ∧ inst s1 = inst s
          ∧ mounts s1 = mounts s ∧ inflight s1 = inflight s
          ∧ streams s1 = streams s ∧ childSlot (child s1) = childSlot (child s)
          ∧ (∀ j, child s = CJob j → ∃ j', child s1 = CJob j'
               ∧ JobStatusStream.effect j' = JobStatusStream.effect j)
          ∧ e1 = [StreamAct k a]) as H.
  { unfold deliver in E1.
    destruct a; crush; split_and!; try done;
      try (intros j0 ?; simplify_eq; eauto);
      try (match goal with H : child _ = _ |- _ => by rewrite H end). }
  destruct H as (H1 & H2 & H3 & H4 & H5 & H6 & Hk & Hj & ->).
  destruct IH as (I1 & I2 & I3 & I4 & I5 & I6 & Hk2 & Hj2 & ->).
  split_and!; try congruence; try done.
  intros j Hc. destruct (Hj j Hc) as (j1 & Hc1 & He1).
  destruct (Hj2 j1 Hc1) as (j2 & Hc2 & He2). exists j2. split; congruence.
Qed.

Lemma steady_refl (s : Sys) : steady s s.
Proof. split_and!; eauto. Qed.

Lemma skeleton_insert (s : Sys) (k : nat) (sup : Supervisor) (st : Stream.State) :
  streams s !! k = Some sup →
  (λ sup, (installedBy sup, forJob sup)) <$>
    <[k := {| installedBy := installedBy sup; forJob := forJob sup;
              closure := st |}]> (streams s)
  = skeleton s.
Proof.
  intros H. unfold skeleton. rewrite list_fmap_insert. simpl.
  apply list_insert_id. by rewrite list_lookup_fmap, H.
Qed.

Lemma streamEvent_steady (k : nat) (e : Stream.Event) (s : Sys) :
  steady s (streamEvent k e s).1
  ∧ app (streamEvent k e s).1 = app s
  ∧ error (streamEvent k e s).1 = error s
  ∧ inflight (streamEvent k e s).1 = inflight s
  ∧ ∃ acts, (streamEvent k e s).2 = StreamAct k <$> acts.
Proof.
  unfold streamEvent.
  destruct (streams s !! k) as [sup|] eqn:Ek;
    [|destruct e; split_and!; try apply steady_refl; try done; by exists []].
  destruct (decide (e = Stream.Cleanup)) as [->|Hne];
    [split_and!; try apply steady_refl; try done; by exists []|].
  assert (Hgo : ∀ st acts, Stream.step (closure sup) e = (st, acts) →
    let r := (setStreams (<[k := {| installedBy := installedBy sup;
                               forJob := forJob sup; closure := st |}]>
                       (streams s))
         >> deliverAll k (installedBy sup) acts) s in
    steady s r.1 ∧ app r.1 = app s ∧ error r.1 = error s
    ∧ inflight r.1 = inflight s ∧ ∃ acts, r.2 = StreamAct k <$> acts).
  { intros st acts _. unfold andThen, setStreams. cbn [fst snd].
    match goal with |- context [deliverAll ?k ?o ?a ?s0] =>
      pose proof (deliverAll_spec k o a s0) as H;
      destruct (deliverAll k o a s0) as [s2 e2] end.
    simpl in *. destruct H as (H1 & H2 & H3 & H4 & H5 & H6 & H7 & H8 & ->).
    split_and!; try done; [|by eexists].
    split_and!; try done. unfold skeleton. rewrite H6. simpl.
    by apply skeleton_insert. }
  destruct (Stream.step (closure sup) e) as [st acts] eqn:Est.
  specialize (Hgo st acts eq_refl). by destruct e.
Qed.

Lemma settle_steady (i : nat) (r : Api.Fetched Payload) (s : Sys) :
  steady s (settle i r s).1.
Proof.
  unfold settle, steady. crush; steady_tac.
Qed.

Lemma ui_steady (ev : Event) (s : Sys) :
  steady s (handle ev s).1.
Proof.
  destruct ev; try apply streamEvent_steady; try apply settle_steady;
    unfold handle, steady; handler_unfold; crush; steady_tac.
Qed.

Lemma consistent_installed (s : Sys) : consistent s → installed s.
Proof. intros [_ H] j Hj. destruct (H j Hj) as (sup & ? & ? & ?). eauto. Qed.

Lemma steady_installed (s s' : Sys) : steady s s' → installed s → installed s'.
Proof.
  intros (Hi & _ & Hk & Hj & Hsk) H j' Hc'.
  assert (∃ j, child s = CJob j) as [j Hc].
  { rewrite Hc' in Hk. destruct (child s); try done. eauto. }
  destruct (Hj j Hc) as (j2 & Hc2 & He). simplify_eq.
  destruct (H j Hc) as (sup & Hl & Ho).
  assert (skeleton s !! JobStatusStream.effect j
          = Some (installedBy sup, forJob sup)) as Hs.
  { unfold skeleton. by rewrite list_lookup_fmap, Hl. }
  rewrite <- Hsk in Hs. unfold skeleton in Hs.
  rewrite list_lookup_fmap in Hs.
  destruct (streams s' !! JobStatusStream.effect j) as [sup'|] eqn:E; [|done].
  simpl in Hs. simplify_eq. exists sup'. split; congruence.
Qed.

Lemma unmount_spec (s : Sys) :
  app (unmount s).1 = app s ∧ error (unmount s).1 = error s
  ∧ inflight (unmount s).1 = inflight s
  ∧ Forall lifecycle (unmount s).2.
Proof.
  unfold unmount. destruct (child s); try (by split_and!).
  destruct (release_spec (JobStatusStream.effect j) s)
    as (? & ? & ? & ? & ? & ? & ? & ?).
  by split_and!.
Qed.

Lemma slotOf_job (a : AppState) :
  slotOf a = SJob → ∃ job, jobId a = Some job ∧ job ≠ "".
Proof.
  unfold slotOf, JobStatusStream.truthyOpt, Js.truthy.
  destruct (currentStep a); try done. destruct (jobId a) as [job|]; [|done].
  case_bool_decide; [done|]. eauto.
Qed.

Lemma mount_spec (slot : Slot) (s : Sys) :
  let r := mount slot s in
  app r.1 = app s ∧ error r.1 = error s
  ∧ (inflight r.1 = inflight s ∨ ∃ o, inflight r.1 = inflight s ++ [FollowersCall o])
  ∧ Forall lifecycle r.2
  ∧ childSlot (child r.1) = slot
  ∧ ∀ j, child r.1 = CJob j →
      ∃ sup, streams r.1 !! JobStatusStream.effect j = Some sup
             ∧ installedBy sup = inst r.1
             ∧ forJob sup = default "" (jobId (app s)).
Proof.
  destruct slot; simpl; unfold mount; act_unfold; simpl;
    try (split_and!; eauto; done).
  - unfold attach. act_unfold. simpl. rewrite decide_True by done. simpl.
    split_and!; eauto; try done.
    + repeat constructor.
    + intros j [= <-]. simpl. eexists. split.
      * rewrite lookup_app_r by lia. rewrite Nat.sub_diag. reflexivity.
      * done.
  - split_and!; eauto; try done. repeat constructor.
Qed.

Lemma andThen_eq (f g : Act) (s : Sys) :
  (f >> g) s = ((g (f s).1).1, (f s).2 ++ (g (f s).1).2).
Proof. unfold andThen. destruct (f s) as [s1 e1]. simpl. by destruct (g s1). Qed.

Lemma framed_refl (s : Sys) : framed s s.
Proof. unfold framed. auto. Qed.

(** [commit] changes neither the campaign state nor the error, issues
    no call but [getFollowers] and leaves the system consistent. *)
Lemma commit_spec (s : Sys) :
  framed s (commit s).1 ∧ Forall lifecycle (commit s).2
  ∧ (installed s → consistent (commit s).1).
Proof.
  unfold commit. destruct (decide (childSlot (child s) = slotOf (app s))) as [Hk|Hk].
  - destruct (child s) as [| |j| | | |] eqn:Hc;
      try (split_and!; [apply framed_refl|constructor|];
           intros _; split;
             [simpl; rewrite Hc; exact Hk|intros ? Hj; simpl in Hj; congruence]).
    simpl in Hk. symmetry in Hk. destruct (slotOf_job _ Hk) as (job & Hjob & Hne).
    rewrite Hjob. simpl.
    destruct (streams s !! JobStatusStream.effect j) as [sup|] eqn:El.
    + destruct (decide (forJob sup = job)) as [<-|Hd].
      * split_and!; [apply framed_refl|constructor|].
        intros Hi. split; [simpl; by rewrite Hc|].
        intros j' Hj'. simpl in Hj'. rewrite Hc in Hj'. simplify_eq.
        destruct (Hi j' Hc) as (sup' & ? & ?). simplify_eq. eauto.
      * rewrite andThen_eq.
        pose proof (release_spec (JobStatusStream.effect j) s)
          as (R1 & R2 & R3 & R4 & R5 & R6 & R7 & R8).
        pose proof (attach_spec job (release (JobStatusStream.effect j) s).1)
          as (A1 & A2 & A3 & A4 & A5 & A6 & A7 & A8).
        cbn [fst snd]. split_and!.
        -- split_and!; [congruence|congruence|left; congruence].
        -- apply Forall_app. split; [done|]. rewrite A8. repeat constructor.
        -- intros _. unfold consistent. rewrite A7, R3, Hc, A1, R1, A6, A3, R4.
           split; [done|].
           intros j' [= <-]. simpl. rewrite Hjob, R7.
           eexists. split;
             [rewrite lookup_app_r by lia; rewrite R7, Nat.sub_diag; reflexivity|].
           done.
    + split_and!; [apply framed_refl|constructor|].
      intros Hi. destruct (Hi j Hc) as (sup & ? & _). congruence.
  - rewrite andThen_eq.
    pose proof (unmount_spec s) as (U1 & U2 & U3 & U4).
    pose proof (mount_spec (slotOf (app s)) (unmount s).1) as (M1 & M2 & M3 & M4 & M5 & M6).
    cbn [fst snd]. split_and!.
    + split_and!; [congruence|congruence|]. rewrite <- U3. exact M3.
    + by apply Forall_app.
    + intros _. unfold consistent. rewrite M1, U1. split; [done|].
      intros j Hj. destruct (M6 j Hj) as (sup & Hl & Ho & Hf).
      exists sup. split_and!; try done.
      rewrite Hj in M5. simpl in M5. symmetry in M5.
      destruct (slotOf_job _ M5) as (job & Hjob & _).
      rewrite Hf, U1, Hjob. done.
Qed.


Lemma step_eq (s : Sys) (ev : Event) :
  step s ev = ((commit (handle ev s).1).1,
               (handle ev s).2 ++ (commit (handle ev s).1).2).
Proof. unfold step. apply andThen_eq. Qed.



(** *** Chosen segments against candidates *)

Lemma within_spec (l cand : list HighlightSegment) :
  within l cand = true ↔ ids l ⊆ ids cand.
Proof.
  unfold within. rewrite forallb_forall. unfold ids. split.
  - intros H x (h & -> & Hh)%list_elem_of_fmap.
    apply list_elem_of_In in Hh. specialize (H h Hh).
    by apply bool_decide_eq_true in H.
  - intros H h Hh. apply bool_decide_eq_true, H, list_elem_of_fmap.
    exists h. split; [done|]. by apply list_elem_of_In.
Qed.

Lemma within_filter (P : HighlightSegment → Prop) `{!∀ h, Decision (P h)}
    (hl : list HighlightSegment) :
  within (filter P hl) hl = true.
Proof.
  apply within_spec. intros x (h & -> & Hh)%list_elem_of_fmap.
  apply list_elem_of_fmap. exists h. split; [done|].
  by apply list_elem_of_filter in Hh as [_ ?].
Qed.

Lemma pending_delete (P : list HighlightSegment → Prop) (l : list Call) (i : nat) :
  Forall P (omap selectionOf l) → Forall P (omap selectionOf (base.delete i l)).
Proof.
  rewrite !Forall_forall. intros H x Hx. apply H.
  apply list_elem_of_omap in Hx as (c & Hc & Hs).
  apply list_elem_of_omap. exists c. split; [|done].
  by eapply list_elem_of_delete_inv.
Qed.

Lemma pending_lookup (P : list HighlightSegment → Prop) (l : list Call) (i : nat)
    (url : string) (sel : list HighlightSegment) :
  Forall P (omap selectionOf l) → l !! i = Some (GenerateCall url sel) → P sel.
Proof.
  rewrite Forall_forall. intros H Hl. apply H, list_elem_of_omap.
  exists (GenerateCall url sel). split; [|done]. by eapply list_elem_of_lookup_2.
Qed.

Lemma pending_snoc (P : list HighlightSegment → Prop) (l : list Call) (c : Call) :
  Forall P (omap selectionOf l) →
  match selectionOf c with Some sel => P sel | None => True end →
  Forall P (omap selectionOf (l ++ [c])).
Proof.
  intros H Hc. rewrite omap_app. apply Forall_app. split; [done|].
  simpl. destruct (selectionOf c); by repeat constructor.
Qed.

Lemma forallb_Forall {A} (f : A → bool) (l : list A) :
  forallb f l = true ↔ Forall (λ x, f x = true) l.
Proof.
  induction l as [|x l IH]; simpl; [by split; constructor|].
  rewrite andb_true_iff, Forall_cons, IH. done.
Qed.

Ltac choice_tac :=
  split; try done;
  repeat first
    [ done
    | apply pending_delete
    | apply pending_snoc; [|simpl; try done; try apply within_filter]
    | by eapply (pending_lookup (λ sel, within sel _ = true)) ].

Lemma handle_choice (ev : Event) (s : Sys) :
  choiceInv s → keepsChoice s ev = true → choiceInv (handle ev s).1.
Proof.
  unfold choiceInv, pendingSelections.
  intros [Hsel Hpend] Hk. destruct ev.
  all: try (unfold handle; handler_unfold; crush; choice_tac; fail).
  - pose proof (streamEvent_steady k ev s) as (_ & Ha & _ & Hi & _).
    unfold handle. by rewrite Ha, Hi.
  - unfold handle; handler_unfold; crush; choice_tac.
    by apply forallb_Forall.
  - unfold handle; handler_unfold; crush; choice_tac;
      apply andb_true_iff in Hk as [Hk1 Hk2]; try done; by apply forallb_Forall.
Qed.

Lemma pending_framed (s s' : Sys) :
  framed s s' → pendingSelections s' = pendingSelections s.
Proof.
  intros (_ & _ & [H|[o H]]); unfold pendingSelections; rewrite H; [done|].
  rewrite omap_app. simpl. by rewrite app_nil_r.
Qed.

Lemma step_choice (ev : Event) (s : Sys) :
  choiceInv s → keepsChoice s ev = true → choiceInv (step s ev).1.
Proof.
  intros Hi Hk. pose proof (handle_choice ev s Hi Hk) as [H1 H2].
  rewrite step_eq. cbn [fst].
  pose proof (commit_spec (handle ev s).1) as (Hf & _).
  unfold choiceInv. rewrite (pending_framed _ _ Hf).
  destruct Hf as (-> & _). done.
Qed.

Lemma run_choice (evs : list Event) (s : Sys) :
  choiceInv s → choiceKept s evs = true → choiceInv (run s evs).1.
Proof.
  revert s. induction evs as [|ev evs IH]; intros s Hi Hk; [done|].
  simpl in *. apply andb_true_iff in Hk as [Hk1 Hk2].
  pose proof (step_choice ev s Hi Hk1) as H1.
  destruct (step s ev) as [s1 e1]. specialize (IH s1 H1 Hk2).
  by destruct (run s1 evs).
Qed.

(** *** Releases and attachments *)

Lemma commit_consistent_id (s : Sys) : consistent s → commit s = (s, []).
Proof.
  intros [Hk Hj]. unfold commit. rewrite decide_True by done.
  destruct (child s) as [| |j| | | |] eqn:Hc; try done.
  destruct (Hj j eq_refl) as (sup & -> & _ & ->). simpl.
  by rewrite decide_True.
Qed.
















(** C2, as the code has it. [handleHighlightsSuccess] replaces the
    candidates and keeps the chosen segments, so the inclusion holds on
    the runs in which the candidates are not taken away from under a
    choice: every extraction result contains the identifiers of the
    segments chosen or submitted for generation so far, and no new
    campaign is started over a generation request still in flight. On
    every such run from the initial state, every chosen segment has an
    identifier that occurs among the candidates. *)
Theorem chosen_within_candidates (evs : list Event)
    (Hkept : choiceKept initial evs = true) :
  chosenWithinCandidates (app (run initial evs).1).
Proof.
  apply within_spec. apply (run_choice evs initial); [|done].
  split; [done|constructor].
Qed.







(** C2 as worded fails: after a generation of [h1], going back to
    url-submit and extracting again with answer [h2] leaves [h1] chosen
    while the candidates are [h2]. *)
Lemma chosen_outlives_fresh_extraction :
  let a := app (run initial Scenario.extractAgain).1 in
  currentStep a = highlights_select
  ∧ highlights a = [Scenario.h2]
  ∧ selectedHighlights a = [Scenario.h1]
  ∧ ¬ chosenWithinCandidates a.
Proof.
  split_and!; try (vm_compute; reflexivity).
  intros H. apply within_spec in H. vm_compute in H. discriminate.
Qed.

Lemma chosen_within_candidates_witness :
  choiceKept initial Scenario.toUpload = true
  ∧ chosenWithinCandidates
      (app (run initial Scenario.toUpload).1).
Proof.
  assert (H : choiceKept initial Scenario.toUpload = true)
    by (vm_compute; reflexivity).
  split; [exact H|]. exact (chosen_within_candidates Scenario.toUpload H).
Defined.

(** C5, as the code has it. Going back from upload-reels changes only
    the step: [jobId], the finished videos and the chosen segments stay.
    As the job-status step is rendered again with the same [jobId], a
    fresh JobStatusStream is mounted and its effect opens a new stream
    connection for that [jobId], with a fresh closure (retry counter
    zero) and no status shown. *)
Theorem back_to_job_status_reattaches (s : Sys) (u : UploadReelsForm.State)
    (job : string)
    (Hc : child s = CUpload u)
    (Hback : finishedVideos (app s) = [] ∨ UploadReelsForm.loading u = false)
    (Hjob : jobId (app s) = Some job)
    (Hne : job ≠ "") :
  let r := step s ClickBack in
  let k := length (streams s) in
  app r.1 = handleBackToJobStatus (app s)
  ∧ currentStep (app r.1) = job_status
  ∧ jobId (app r.1) = Some job
  ∧ finishedVideos (app r.1) = finishedVideos (app s)
  ∧ selectedHighlights (app r.1) = selectedHighlights (app s)
  ∧ r.2 = [Attached k job; StreamAct k (Stream.CreateJobStream 0)]
  ∧ child r.1 = CJob {| JobStatusStream.status := None;
                        JobStatusStream.error := None;
                        JobStatusStream.effect := k |}
  ∧ streams r.1
    = streams s ++ [{| installedBy := mounts s; forJob := job;
                       closure := Stream.attach.1 |}].
Proof.
  intros r k.
  assert (Hh : handle ClickBack s
    = ({| app := handleBackToJobStatus (app s);
          error := None; child := CUpload u; inst := inst s;
          mounts := mounts s; inflight := inflight s;
          streams := streams s |}, [])).
  { unfold handle. rewrite Hc. unfold uploadEvent.
    unfold container, andThen, setApp, setError.
    destruct Hback as [Hb|Hb]; rewrite Hb; simpl; rewrite ?Hc; [done|].
    case_bool_decide; by rewrite ?Hc. }
  assert (Hslot : slotOf (handleBackToJobStatus (app s)) = SJob).
  { unfold slotOf. simpl. rewrite Hjob. simpl. unfold Js.truthy.
    by rewrite bool_decide_eq_false_2. }
  subst r. rewrite step_eq, Hh. cbn [fst snd].
  unfold commit. cbn [child app childSlot]. rewrite Hslot.
  rewrite decide_False by done.
  unfold unmount, mount, attach. act_unfold. simpl.
  rewrite decide_True by done. simpl. rewrite Hjob. by split_and!.
Qed.

Lemma back_to_job_status_reattaches_witness :
  child (run initial Scenario.toUpload).1
  = CUpload (UploadReelsForm.initialState ["out/a.mp4"] [Scenario.h1])
  ∧ attaches (step (run initial Scenario.toUpload).1
                    ClickBack).2 = [(1, "j1")].
Proof.
  assert (Hc : child (run initial Scenario.toUpload).1
    = CUpload (UploadReelsForm.initialState ["out/a.mp4"] [Scenario.h1]))
    by (vm_compute; reflexivity).
  split; [exact Hc|].
  pose proof (back_to_job_status_reattaches _ _ "j1" Hc
                (or_intror eq_refl) eq_refl ltac:(discriminate))
    as (_ & _ & _ & _ & _ & H6 & _).
  rewrite H6. reflexivity.
Defined.

(** C5 as worded fails: in the scenario, going back from upload-reels
    installs a second closure for [j1] and opens a connection. *)
Lemma back_from_upload_opens_a_connection :
  let s := (run initial Scenario.toUpload).1 in
  currentStep (app s) = upload_reels
  ∧ jobId (app s) = Some "j1"
  ∧ (step s ClickBack).2
    = [Attached 1 "j1"; StreamAct 1 (Stream.CreateJobStream 0)].
Proof. vm_compute. by split_and!. Qed.

(** C6 fails in the selection step: the second click on "Generate",
    made before the first request is answered, issues a second
    [generateVideos] request; both are then in flight. *)
Theorem second_generate_click_issues_second_request :
  let r := run initial Scenario.generateTwice in
  let request := GenerateCall "https://youtu.be/abc" [Scenario.h1] in
  currentStep (app r.1) = highlights_select
  ∧ inflight r.1 = [request; request]
  ∧ callsIssued r.2
    = [ExtractCall 0 "https://youtu.be/abc" "en" false; request; request].
Proof. vm_compute. by split_and!. Qed.

Lemma steady_consistent (s s' : Sys) :
  steady s s' → app s' = app s → consistent s → consistent s'.
Proof.
  intros Hst Ha [Hk Hj]. pose proof Hst as (Hi & _ & Hk' & _ & Hsk).
  split; [by rewrite Hk', Ha|].
  intros j' Hc'.
  destruct (steady_installed s s' Hst (consistent_installed s (conj Hk Hj)) j' Hc')
    as (sup' & Hl' & Ho').
  exists sup'. split_and!; try done.
  assert (∃ j, child s = CJob j) as [j Hc].
  { rewrite Hc' in Hk'. destruct (child s); try done. eauto. }
  destruct Hst as (_ & _ & _ & Hjj & _).
  destruct (Hjj j Hc) as (j2 & Hc2 & He). rewrite Hc' in Hc2.
  injection Hc2 as <-.
  destruct (Hj j Hc) as (sup & Hl & Ho & Hjob).
  assert (skeleton s' !! JobStatusStream.effect j'
          = Some (installedBy sup', forJob sup')) as Hs'
    by (unfold skeleton; by rewrite list_lookup_fmap, Hl').
  rewrite Hsk in Hs'. unfold skeleton in Hs'.
  rewrite list_lookup_fmap, He, Hl in Hs'. simpl in Hs'.
  injection Hs' as _ Hf. rewrite Ha. congruence.
Qed.

(** A handler that leaves the campaign state alone is not followed by
    any mounting or unmounting. *)
Lemma step_same_app (s : Sys) (ev : Event) :
  consistent s → app (handle ev s).1 = app s → step s ev = handle ev s.
Proof.
  intros Hc Ha. rewrite step_eq.
  rewrite (commit_consistent_id (handle ev s).1).
  - simpl. rewrite app_nil_r. by destruct (handle ev s).
  - eapply steady_consistent; [apply ui_steady|done|done].
Qed.

(** "Generate" is wired to [handleGenerateVideos] with no flag in
    between: whatever is in flight, a click with a non-empty selection
    issues a request. *)
Lemma generate_is_not_guarded (s : Sys) (h : HighlightsSelector.State) :
  consistent s → child s = CSelect h → HighlightsSelector.selectedIds h ≠ [] →
  (step s ClickGenerate).2
  = [Called (GenerateCall (videoUrl (app s))
       (HighlightsSelector.handleGenerate (highlights (app s)) h))].
Proof.
  intros Hcons Hc Hne.
  assert (Hh : handle ClickGenerate s
    = ({| app := app s; error := None; child := child s; inst := inst s;
          mounts := mounts s;
          inflight := inflight s ++ [GenerateCall (videoUrl (app s))
            (HighlightsSelector.handleGenerate (highlights (app s)) h)];
          streams := streams s |},
       [Called (GenerateCall (videoUrl (app s))
          (HighlightsSelector.handleGenerate (highlights (app s)) h))])).
  { unfold handle. rewrite Hc. unfold selectEvent.
    rewrite bool_decide_eq_true_2;
      [|destruct (HighlightsSelector.selectedIds h); [done|simpl; lia]].
    act_unfold. simpl. by rewrite Hc. }
  rewrite step_same_app by (by rewrite ?Hh). by rewrite Hh.
Qed.

(** The sibling forms do have the flag: while [loading] (or
    [sendingDMs]) is set, their buttons do nothing. *)
Lemma submit_is_guarded (s : Sys) (f : URLSubmitForm.State) :
  child s = CUrl f → URLSubmitForm.loading f = true →
  handle Submit s = (s, []).
Proof.
  intros Hc Hl. unfold handle. rewrite Hc. unfold urlEvent. by rewrite Hl.
Qed.

Lemma upload_is_guarded (s : Sys) (u : UploadReelsForm.State) :
  child s = CUpload u → UploadReelsForm.loading u = true →
  handle ClickUpload s = (s, []).
Proof.
  intros Hc Hl. unfold handle. rewrite Hc. unfold uploadEvent. rewrite Hl.
  by case_bool_decide.
Qed.

Lemma send_is_guarded (s : Sys) (d : DMFollowersForm.State) :
  child s = CDm d → DMFollowersForm.sendingDMs d = true →
  handle ClickSendDMs s = (s, []).
Proof.
  intros Hc Hl. unfold handle. rewrite Hc. unfold dmEvent. rewrite Hl.
  by rewrite !andb_false_r.
Qed.












(** C1 fails after a reconnection. The cleanup of the effect closes
    [eventSource], the first source, and clears the last timer; a source
    created by a later [connectToStream] stays open. In a closure taken
    by itself: the first source fails, the timer fires, the second
    source opens, the cleanup runs, and the next message of the second
    source is still parsed and passed to [setStatus]. In the
    application: the same happens when the user leaves job-status with
    "Back"; the campaign is in highlights-select with no [jobId], the
    closure of [j1] has been cleaned up, and the update is delivered by
    it afterwards. *)
Theorem update_delivered_after_release (u : JobStreamUpdate) :
  (Stream.run Stream.attach.1
     [Stream.OnError 0; Stream.TimerFired 0; Stream.OnOpen 1;
      Stream.Cleanup; Stream.OnMessage 1 (Some u)]).2
  = [Stream.EsClose 0;
     Stream.SetError (Some "Connection failed, retrying (1/3)...");
     Stream.SetTimeout 0 (Stream.backoffUnit * 1);
     Stream.CreateJobStream 1;
     Stream.SetError None;
     Stream.ClearTimeout 0; Stream.EsClose 0;
     Stream.SetStatus u; Stream.SetError None]
  ∧ let s := (run initial Scenario.toReconnected).1 in
    let r := run s (Scenario.leaveThenUpdate u) in
    currentStep (app s) = job_status
    ∧ jobId (app s) = Some "j1"
    ∧ currentStep (app r.1) = highlights_select
    ∧ jobId (app r.1) = None
    ∧ r.2 = [Released 0;
             StreamAct 0 (Stream.ClearTimeout 0);
             StreamAct 0 (Stream.EsClose 0);
             StreamAct 0 (Stream.SetStatus u);
             StreamAct 0 (Stream.SetError None)].
Proof.
  split; [reflexivity|]. by split_and!.
Qed.

(** The same leak inside job-status: when [jobId] changes under a
    mounted JobStatusStream, the effect is cleaned up and run again, the
    reconnected source of the old job stays open, and its updates reach
    the state of the component that now shows the new job. Here the
    videos reported for [j1] are stored as the finished videos of the
    campaign whose job is [j2]. *)
Lemma released_closure_feeds_the_next_job :
  let r := run initial Scenario.staleUpdate in
  jobId (app r.1) = Some "j2"
  ∧ currentStep (app r.1) = upload_reels
  ∧ finishedVideos (app r.1) = ["out/a.mp4"]
  ∧ releases r.2 = [0; 1]
  ∧ attaches r.2 = [(0, "j1"); (1, "j2")].
Proof. vm_compute. by split_and!. Qed.

End CampaignFacts.
